(** * aws_list_resources.py: a shallow embedding and its properties

    The program lists the resources of one AWS service in one region and
    prints them as an aligned text table.  This development embeds the
    Python source function by function:

    - Python strings are [string]: a sequence of code points below 256,
      on which [lower], [strip], [ljust], [join] and [len] are written out;
    - exceptions are the inductive [exn]; code that can raise returns a
      [result];
    - printing, exiting and the calls into boto3 are threaded through the
      state-and-exception monad [M] over a [world];
    - boto3 itself is the collaborator: a [Session] is a record of the
      answers the SDK gives, so every theorem quantifies over all of them. *)

From Stdlib Require Import String Ascii List ZArith Lia DecimalString Bool.
From stdpp Require Import base list strings.
Import ListNotations.

Local Open Scope string_scope.
Local Open Scope list_scope.

(** ** Python strings and builtins *)

Module Py.

(** [s * n] on strings. *)
Fixpoint str_mul (s : string) (n : nat) : string :=
  match n with
  | O => ""
  | S n' => s +:+ str_mul s n'
  end.

Definition len (s : string) : nat := String.length s.

(** [s.ljust(w)]: pad with spaces on the right up to [w] characters. *)
Definition ljust (s : string) (w : nat) : string :=
  s +:+ str_mul " " (w - len s).

(** [sep.join(l)]. *)
Fixpoint join (sep : string) (l : list string) : string :=
  match l with
  | [] => ""
  | [x] => x
  | x :: rest => x +:+ sep +:+ join sep rest
  end.

(** [c.isspace()] for a code point below 256: tab to carriage return,
    the four separators 0x1c-0x1f, space, NEL (0x85) and NBSP (0xa0). *)
Definition isspace (c : ascii) : bool :=
  let n := nat_of_ascii c in
  (((9 <=? n) && (n <=? 13)) || ((28 <=? n) && (n <=? 32))
   || (n =? 133) || (n =? 160))%nat.

(** [c.lower()] for a code point below 256: A-Z and the Latin-1 capitals
    0xc0-0xde (the multiplication sign 0xd7 apart) move up by 32. *)
Definition lower_char (c : ascii) : ascii :=
  let n := nat_of_ascii c in
  if (((65 <=? n) && (n <=? 90))
      || ((192 <=? n) && (n <=? 222) && negb (n =? 215)))%nat
  then ascii_of_nat (n + 32) else c.

Fixpoint lower (s : string) : string :=
  match s with
  | EmptyString => EmptyString
  | String c s' => String (lower_char c) (lower s')
  end.

Fixpoint lstrip (s : string) : string :=
  match s with
  | EmptyString => EmptyString
  | String c s' => if isspace c then lstrip s' else s
  end.

Fixpoint rstrip (s : string) : string :=
  match s with
  | EmptyString => EmptyString
  | String c s' =>
      match rstrip s' with
      | EmptyString => if isspace c then EmptyString else String c EmptyString
      | r => String c r
      end
  end.

(** [s.strip()]: the left index moves first, then the right one. *)
Definition strip (s : string) : string := rstrip (lstrip s).

(** [sorted(l)] on strings, ordered by code point; stable. *)
Fixpoint insert_sorted (x : string) (l : list string) : list string :=
  match l with
  | [] => [x]
  | y :: l' => if String.ltb x y then x :: l else y :: insert_sorted x l'
  end.

Definition sorted (l : list string) : list string :=
  fold_right insert_sorted [] (rev l).

(** [str(n)] for an int. *)
Definition str_int (z : Z) : string := NilZero.string_of_int (Z.to_int z).

(** ["%0wd" % n]: decimal, zero-padded on the left to [w] digits. *)
Definition zpad (w : nat) (n : N) : string :=
  let s := NilZero.string_of_uint (N.to_uint n) in
  str_mul "0" (w - len s) +:+ s.

(** [datetime.datetime]; [utcoffset] in minutes, [None] for a naive one. *)
Record datetime : Type := mk_datetime {
  year : N; month : N; day : N;
  hour : N; minute : N; second : N;
  microsecond : N;
  utcoffset : option Z
}.

(** [dt.strftime("%Y-%m-%d %H:%M:%S")]. *)
Definition strftime_ymd_hms (d : datetime) : string :=
  zpad 4 (year d) +:+ "-" +:+ zpad 2 (month d) +:+ "-" +:+ zpad 2 (day d)
  +:+ " " +:+ zpad 2 (hour d) +:+ ":" +:+ zpad 2 (minute d) +:+ ":"
  +:+ zpad 2 (second d).

(** [str(dt)] is [dt.isoformat(sep=' ')]. *)
Definition str_datetime (d : datetime) : string :=
  strftime_ymd_hms d
  +:+ (if (microsecond d =? 0)%N then "" else "." +:+ zpad 6 (microsecond d))
  +:+ match utcoffset d with
      | None => ""
      | Some off =>
          let m := Z.to_N (Z.abs off) in
          (if (off <? 0)%Z then "-" else "+")
          +:+ zpad 2 (m / 60)%N +:+ ":" +:+ zpad 2 (m mod 60)%N
      end.

(** The values that reach [human_ts]: the timestamp field of a response
    entry is absent ([PNone]), a parsed [datetime], or left as it came. *)
Inductive pyval : Type :=
| PNone
| PStr (s : string)
| PInt (z : Z)
| PDatetime (d : datetime).

Definition str (v : pyval) : string :=
  match v with
  | PNone => "None"
  | PStr s => s
  | PInt z => str_int z
  | PDatetime d => str_datetime d
  end.

End Py.

Import Py.

(** ** Exceptions *)

(** [e.response] of a [ClientError]: the code reads
    [e.response.get("Error", {})] and then the keys [Code] and [Message]. *)
Record error_dict : Type := mk_error_dict {
  Code : option string;
  Message : option string
}.

Record error_response : Type := mk_error_response {
  Error : option error_dict
}.

(** The exception classes the program names or meets.  Each carries
    [str(e)]; [OtherException] stands for any other subclass of
    [Exception].  [KeyboardInterrupt] and [SystemExit] derive from
    [BaseException] only. *)
Inductive exn : Type :=
| NoCredentialsError (msg : string)
| PartialCredentialsError (msg : string)
| EndpointConnectionError (msg : string)
| UnknownServiceError (msg : string)
| ClientError (response : error_response) (msg : string)
| ParamValidationError (msg : string)
| NoRegionError (msg : string)
| IndexError (msg : string)
| KeyError (msg : string)
| AttributeError (msg : string)
| OtherException (msg : string)
| KeyboardInterrupt
| SystemExit (code : Z).

(** [isinstance(e, Exception)]. *)
Definition is_Exception (e : exn) : bool :=
  match e with
  | KeyboardInterrupt | SystemExit _ => false
  | _ => true
  end.

(** [isinstance(e, ClientError)]. *)
Definition is_ClientError (e : exn) : bool :=
  match e with
  | ClientError _ _ => true
  | _ => false
  end.

(** [str(e)], what an f-string prints for [{e}]. *)
Definition str_exn (e : exn) : string :=
  match e with
  | NoCredentialsError m | PartialCredentialsError m
  | EndpointConnectionError m | UnknownServiceError m
  | ClientError _ m | ParamValidationError m | NoRegionError m
  | IndexError m | KeyError m | AttributeError m | OtherException m => m
  | KeyboardInterrupt => ""
  | SystemExit c => str_int c
  end.

(** A computation without output that returns or raises. *)
Inductive result (A : Type) : Type :=
| Ok (a : A)
| Raise (e : exn).
Arguments Ok {A} a.
Arguments Raise {A} e.

Definition rbind {A B} (m : result A) (k : A -> result B) : result B :=
  match m with
  | Ok a => k a
  | Raise e => Raise e
  end.

Notation "'let?' x := m 'in' k" := (rbind m (fun x => k))
  (at level 10, x name, m at level 100, k at level 200, only parsing).

(** A [for] loop that threads an accumulator and stops at the first raise. *)
Fixpoint rfoldl {A B} (f : A -> B -> result A) (a : A) (l : list B)
  : result A :=
  match l with
  | [] => Ok a
  | b :: l' => let? a' := f a b in rfoldl f a' l'
  end.

(** A generator expression consumed in order. *)
Fixpoint rmap {A B} (f : A -> result B) (l : list A) : result (list B) :=
  match l with
  | [] => Ok []
  | a :: l' => let? b := f a in let? bs := rmap f l' in Ok (b :: bs)
  end.

(** [l[i]] for [i >= 0]. *)
Definition getitem {A} (l : list A) (i : nat) : result A :=
  match l !! i with
  | Some x => Ok x
  | None => Raise (IndexError "list index out of range")
  end.

(** [enumerate(l)]. *)
Fixpoint enumerate_from {A} (i : nat) (l : list A) : list (nat * A) :=
  match l with
  | [] => []
  | x :: l' => (i, x) :: enumerate_from (S i) l'
  end.

Definition enumerate {A} (l : list A) : list (nat * A) := enumerate_from 0 l.

(** [d.get(k, default)] once the key's presence is an [option]. *)
Definition get {A} (field : option A) (default : A) : A :=
  match field with
  | Some v => v
  | None => default
  end.

(** ** The world: both output streams and the calls into boto3 *)

Inductive call : Type :=
| CallSession (profile_name : option string) (region_name : string)
| CallClient (service_name : string) (region_name : option string).

Record world : Type := mk_world {
  stdout : list string;   (* one entry per [print] to standard output *)
  stderr : list string;   (* one entry per [print] to the error stream *)
  calls : list call       (* sessions and clients asked of boto3, in order *)
}.

Definition init_world : world := mk_world [] [] [].

Definition M (A : Type) : Type := world -> result A * world.

Definition ret {A} (a : A) : M A := fun w => (Ok a, w).

Definition bind {A B} (m : M A) (k : A -> M B) : M B :=
  fun w =>
    match m w with
    | (Ok a, w') => k a w'
    | (Raise e, w') => (Raise e, w')
    end.

Notation "'let!' x := m 'in' k" := (bind m (fun x => k))
  (at level 10, x name, m at level 100, k at level 200, only parsing).
Notation "m >> k" := (bind m (fun _ => k))
  (at level 100, k at level 200, only parsing, right associativity).

Definition raise {A} (e : exn) : M A := fun w => (Raise e, w).

Definition lift {A} (r : result A) : M A := fun w => (r, w).

(** [try: m  except ...: h e]; [h e = None] when no clause matches [e]. *)
Definition try_except {A} (m : M A) (h : exn -> option (M A)) : M A :=
  fun w =>
    match m w with
    | (Ok a, w') => (Ok a, w')
    | (Raise e, w') =>
        match h e with
        | Some k => k w'
        | None => (Raise e, w')
        end
    end.

(** A [for] loop over a list, run for its effects. *)
Fixpoint for_each {A} (l : list A) (body : A -> M unit) : M unit :=
  match l with
  | [] => ret tt
  | a :: l' => body a >> for_each l' body
  end.

Definition print (s : string) : M unit :=
  fun w => (Ok tt, mk_world (stdout w ++ [s]) (stderr w) (calls w)).

Definition print_stderr (s : string) : M unit :=
  fun w => (Ok tt, mk_world (stdout w) (stderr w ++ [s]) (calls w)).

Definition log_call (c : call) : M unit :=
  fun w => (Ok tt, mk_world (stdout w) (stderr w) (calls w ++ [c])).

(** ** Helpers *)

(** [dt.strftime(...)] on whatever arrives: only a datetime has the
    method, anything else raises [AttributeError]. *)
Definition strftime (dt : pyval) : result string :=
  match dt with
  | PDatetime d => Ok (strftime_ymd_hms d)
  | PNone =>
      Raise (AttributeError "'NoneType' object has no attribute 'strftime'")
  | PStr _ =>
      Raise (AttributeError "'str' object has no attribute 'strftime'")
  | PInt _ =>
      Raise (AttributeError "'int' object has no attribute 'strftime'")
  end.

(** [human_ts]: [try: return dt.strftime(...)  except Exception: return str(dt)].
    Every raise of [strftime] is an [AttributeError], hence caught. *)
Definition human_ts (dt : pyval) : string :=
  match strftime dt with
  | Ok s => s
  | Raise _ => str dt
  end.

Definition print_header (title : string) : M unit :=
  print (str_mul "=" (len title)) >>
  print title >>
  print (str_mul "=" (len title)).

(** [widths[i] = max(widths[i], len(col))]: the read of [widths[i]]
    raises [IndexError] when the row has more cells than there are
    headers. *)
Definition widen (widths : list nat) (ic : nat * string)
  : result (list nat) :=
  let? w := getitem widths (fst ic) in
  Ok (<[fst ic := Nat.max w (len (snd ic))]> widths).

(** The two nested loops that compute the column widths. *)
Definition column_widths (rows : list (list string)) (headers : list string)
  : result (list nat) :=
  rfoldl (fun widths r => rfoldl widen widths (enumerate r))
         (map len headers) rows.

(** [" | ".join(r[i].ljust(widths[i]) for i in range(len(headers)))]. *)
Definition row_line (widths : list nat) (headers : list string)
  (r : list string) : result string :=
  let? cells :=
    rmap (fun i =>
            let? c := getitem r i in
            let? w := getitem widths i in
            Ok (ljust c w))
         (seq 0 (length headers)) in
  Ok (join " | " cells).

Definition print_table (rows : list (list string)) (headers : list string)
  : M unit :=
  match rows with
  | [] => print "(no resources found)"
  | _ =>
      let! widths := lift (column_widths rows headers) in
      let! header_line :=
        lift (let? cells :=
                rmap (fun ih =>
                        let? w := getitem widths (fst ih) in
                        Ok (ljust (snd ih) w))
                     (enumerate headers) in
              Ok (join " | " cells)) in
      let! sep_line :=
        lift (let? runs :=
                rmap (fun i =>
                        let? w := getitem widths i in
                        Ok (str_mul "-" w))
                     (seq 0 (length headers)) in
              Ok (join "-+-" runs)) in
      print header_line >>
      print sep_line >>
      for_each rows (fun r =>
        let! line := lift (row_line widths headers r) in
        print line)
  end.

(** [fail(msg, code)]: one line on the error stream, then [sys.exit(code)].
    The source's default [code=1] is written at each call. *)
Definition fail {A} (msg : string) (code : Z) : M A :=
  print_stderr ("Error: " +:+ msg) >>
  raise (SystemExit code).

(** ** What boto3 answers *)

(** A paginator's [paginate()]: pages arrive one at a time and fetching the
    next one can raise.  A raise of [get_paginator] itself is a
    [PageError] in first position. *)
Inductive pages (A : Type) : Type :=
| NoMorePages
| Page (p : A) (rest : pages A)
| PageError (e : exn).
Arguments NoMorePages {A}.
Arguments Page {A} p rest.
Arguments PageError {A} e.

(** [for page in paginator.paginate(): body], with [rows] threaded. *)
Fixpoint for_pages {A R} (ps : pages A) (body : R -> A -> result R)
  (rows : R) : result R :=
  match ps with
  | NoMorePages => Ok rows
  | Page p rest => let? rows' := body rows p in for_pages rest body rows'
  | PageError e => Raise e
  end.

(** Response entries.  A key the code reads with a default (or with
    [or {}], [or []]) is an [option]; a timestamp is a [pyval]. *)
Record tag : Type := mk_tag {
  Key : option string;
  Value : option string
}.

Record instance_state : Type := mk_instance_state {
  State_Name : option string
}.

Record placement : Type := mk_placement {
  AvailabilityZone : option string
}.

Record instance : Type := mk_instance {
  InstanceId : option string;
  InstanceType : option string;
  State : option instance_state;
  Placement : option placement;
  LaunchTime : pyval;
  Tags : option (list tag)
}.

Record reservation : Type := mk_reservation {
  Instances : option (list instance)
}.

Record ec2_page : Type := mk_ec2_page {
  Reservations : option (list reservation)
}.

Record bucket : Type := mk_bucket {
  Bucket_Name : string;
  CreationDate : pyval
}.

Record list_buckets_response : Type := mk_list_buckets_response {
  Buckets : option (list bucket)
}.

Record bucket_location_response : Type := mk_bucket_location_response {
  LocationConstraint : option string
}.

Record table_description : Type := mk_table_description {
  TableStatus : option string;
  ItemCount : option Z;
  TableSizeBytes : option Z
}.

Record describe_table_response : Type := mk_describe_table_response {
  Table : option table_description
}.

Record tables_page : Type := mk_tables_page {
  TableNames : option (list string)
}.

Record endpoint : Type := mk_endpoint {
  Address : option string
}.

Record db_instance : Type := mk_db_instance {
  DBInstanceIdentifier : option string;
  Engine : option string;
  DBInstanceClass : option string;
  DBInstanceStatus : option string;
  Endpoint : option endpoint;
  InstanceCreateTime : pyval
}.

Record rds_page : Type := mk_rds_page {
  DBInstances : option (list db_instance)
}.

Record lambda_function : Type := mk_lambda_function {
  FunctionName : option string;
  Runtime : option string;
  Version : option string;
  LastModified : option string
}.

Record lambda_page : Type := mk_lambda_page {
  Functions : option (list lambda_function)
}.

(** A client: the answer to each operation the handlers call. *)
Record Client : Type := mk_Client {
  describe_instances : pages ec2_page;
  list_buckets : result list_buckets_response;
  get_bucket_location : string -> result bucket_location_response;
  list_tables : pages tables_page;
  describe_table : string -> result describe_table_response;
  describe_db_instances : pages rds_page;
  list_functions : pages lambda_page
}.

(** A session: [session.client(service_name, region_name=...)]. *)
Record Session : Type := mk_Session {
  make_client : string -> option string -> result Client
}.

(** The SDK: [boto3.Session(profile_name=..., region_name=...)]. *)
Record SDK : Type := mk_SDK {
  boto3_Session : option string -> string -> result Session
}.

Definition new_session (sdk : SDK) (profile_name : option string)
  (region_name : string) : M Session :=
  log_call (CallSession profile_name region_name) >>
  lift (boto3_Session sdk profile_name region_name).

Definition client (session : Session) (service_name : string)
  (region_name : option string) : M Client :=
  log_call (CallClient service_name region_name) >>
  lift (make_client session service_name region_name).

(** [get_session].  [if profile:] is false for [None] and for the empty
    string.  [fail] leaves through [SystemExit], which neither clause
    catches again. *)
Definition get_session (sdk : SDK) (profile : option string)
  (region : string) : M Session :=
  try_except
    (match profile with
     | Some (String _ _ as p) => new_session sdk (Some p) region
     | _ => new_session sdk None region
     end)
    (fun e =>
       match e with
       | NoRegionError _ => Some (fail (str_exn e) 1)
       | _ =>
           if is_Exception e
           then Some (fail ("Failed to initialize AWS session: "
                            +:+ str_exn e) 1)
           else None
       end).

(** ** Service handlers *)

(** The loop over the tags: the first tag whose key is [Name] gives the
    name and ends the loop. *)
Fixpoint name_tag (tags : list tag) : string :=
  match tags with
  | [] => ""
  | t :: rest =>
      match Key t with
      | Some k => if String.eqb k "Name" then get (Value t) ""
                  else name_tag rest
      | None => name_tag rest
      end
  end.

Definition ec2_row (inst : instance) : list string :=
  let inst_id := get (InstanceId inst) "" in
  let inst_type := get (InstanceType inst) "" in
  let state := get (State_Name (get (State inst) (mk_instance_state None))) "" in
  let az :=
    get (AvailabilityZone (get (Placement inst) (mk_placement None))) "" in
  let launch := human_ts (LaunchTime inst) in
  let name := name_tag (get (Tags inst) []) in
  [inst_id; state; inst_type; az; launch; name].

Definition list_ec2 (session : Session) (region : string) : M unit :=
  let! ec2 := client session "ec2" (Some region) in
  let! rows :=
    lift (for_pages (describe_instances ec2)
            (fun rows page =>
               Ok (fold_left
                     (fun rows reservation =>
                        fold_left (fun rows inst => rows ++ [ec2_row inst])
                                  (get (Instances reservation) []) rows)
                     (get (Reservations page) []) rows))
            []) in
  print_header ("EC2 Instances in " +:+ region) >>
  print_table rows
    ["InstanceId"; "State"; "Type"; "AZ"; "LaunchTime"; "Name"].

(** [loc or "us-east-1"]: [None] and the empty string are both false. *)
Definition or_us_east_1 (loc : option string) : string :=
  match loc with
  | Some (String _ _ as l) => l
  | _ => "us-east-1"
  end.

(** One turn of the loop over the buckets. *)
Definition s3_step (s3 : Client) (region : string)
  (rows : list (list string)) (b : bucket) : result (list (list string)) :=
  let name := Bucket_Name b in
  match get_bucket_location s3 name with
  | Ok resp =>
      let loc := LocationConstraint resp in
      let bucket_region := or_us_east_1 loc in
      if String.eqb bucket_region region
      then let created := human_ts (CreationDate b) in
           Ok (rows ++ [[name; bucket_region; created]])
      else Ok rows
  | Raise e =>
      if is_ClientError e then Ok rows   (* continue *)
      else Raise e
  end.

Definition list_s3 (session : Session) (region : string) : M unit :=
  let! s3 := client session "s3" None in
  let! resp := lift (list_buckets s3) in
  let buckets := get (Buckets resp) [] in
  let! rows := lift (rfoldl (s3_step s3 region) [] buckets) in
  print_header ("S3 Buckets in " +:+ region) >>
  print_table rows ["BucketName"; "Region"; "CreationDate"].

(** [str(desc.get(k, ""))] for an integer field. *)
Definition str_int_or_empty (field : option Z) : string :=
  match field with
  | Some z => str_int z
  | None => ""
  end.

(** The [try] body for one table: [describe_table(...)["Table"]] and the
    three fields. *)
Definition dynamodb_describe (ddb : Client) (table : string)
  : result (list string) :=
  let? resp := describe_table ddb table in
  let? desc :=
    match Table resp with
    | Some d => Ok d
    | None => Raise (KeyError "'Table'")
    end in
  let status := get (TableStatus desc) "" in
  let items := str_int_or_empty (ItemCount desc) in
  let size := str_int_or_empty (TableSizeBytes desc) in
  Ok [table; status; items; size].

(** One turn of the loop over the table names. *)
Definition dynamodb_step (ddb : Client) (rows : list (list string))
  (table : string) : result (list (list string)) :=
  match dynamodb_describe ddb table with
  | Ok row => Ok (rows ++ [row])
  | Raise e =>
      if is_ClientError e
      then Ok (rows ++ [[table; "(access denied)"; ""; ""]])
      else Raise e
  end.

Definition list_dynamodb (session : Session) (region : string) : M unit :=
  let! ddb := client session "dynamodb" (Some region) in
  let! rows :=
    lift (for_pages (list_tables ddb)
            (fun rows page =>
               rfoldl (dynamodb_step ddb) rows (get (TableNames page) []))
            []) in
  print_header ("DynamoDB Tables in " +:+ region) >>
  print_table rows ["TableName"; "Status"; "ItemCount"; "SizeBytes"].

Definition rds_row (db : db_instance) : list string :=
  let ident := get (DBInstanceIdentifier db) "" in
  let eng := get (Engine db) "" in
  let cls := get (DBInstanceClass db) "" in
  let status := get (DBInstanceStatus db) "" in
  let endpoint := get (Address (get (Endpoint db) (mk_endpoint None))) "" in
  let created := human_ts (InstanceCreateTime db) in
  [ident; eng; cls; status; endpoint; created].

Definition list_rds (session : Session) (region : string) : M unit :=
  let! rds := client session "rds" (Some region) in
  let! rows :=
    lift (for_pages (describe_db_instances rds)
            (fun rows page =>
               Ok (fold_left (fun rows db => rows ++ [rds_row db])
                             (get (DBInstances page) []) rows))
            []) in
  print_header ("RDS DB Instances in " +:+ region) >>
  print_table rows
    ["Identifier"; "Engine"; "Class"; "Status"; "Endpoint"; "Created"].

Definition lambda_row (fn : lambda_function) : list string :=
  let name := get (FunctionName fn) "" in
  let runtime := get (Runtime fn) "" in
  let ver := get (Version fn) "" in
  let last_mod := get (LastModified fn) "" in
  [name; runtime; ver; last_mod].

Definition list_lambda (session : Session) (region : string) : M unit :=
  let! lam := client session "lambda" (Some region) in
  let! rows :=
    lift (for_pages (list_functions lam)
            (fun rows page =>
               Ok (fold_left (fun rows fn => rows ++ [lambda_row fn])
                             (get (Functions page) []) rows))
            []) in
  print_header ("Lambda Functions in " +:+ region) >>
  print_table rows ["FunctionName"; "Runtime"; "Version"; "LastModified"].

Definition handler : Type := Session -> string -> M unit.

(** The dict [SUPPORTED], in insertion order. *)
Definition SUPPORTED : list (string * handler) :=
  [ ("ec2", list_ec2);
    ("s3", list_s3);
    ("dynamodb", list_dynamodb);
    ("rds", list_rds);
    ("lambda", list_lambda) ].

(** [d.keys()], [k in d] and [d[k]] on a dict kept as an association list. *)
Definition keys {V} (d : list (string * V)) : list string := map fst d.

Definition contains {V} (d : list (string * V)) (k : string) : bool :=
  existsb (String.eqb k) (keys d).

Fixpoint subscript {V} (d : list (string * V)) (k : string) : result V :=
  match d with
  | [] => Raise (KeyError ("'" +:+ k +:+ "'"))
  | (k', v) :: d' => if String.eqb k k' then Ok v else subscript d' k
  end.

(** ** Main *)

(** What [parser.parse_args()] returns. *)
Record Namespace : Type := mk_Namespace {
  args_service : string;
  args_region : string;
  args_profile : option string
}.

(** The [except] clauses of [main], in the order of the source. *)
Definition main_handlers (service region : string) (e : exn)
  : option (M Z) :=
  match e with
  | NoCredentialsError _ =>
      Some (fail "No AWS credentials found. Configure credentials via environment variables or AWS config files." 1)
  | PartialCredentialsError _ =>
      Some (fail "Partial AWS credentials found. Please complete your AWS credential configuration." 1)
  | EndpointConnectionError _ =>
      Some (fail ("Could not connect to endpoint for region '" +:+ region
                  +:+ "'. Is the region correct? Details: " +:+ str_exn e) 1)
  | UnknownServiceError _ =>
      Some (fail ("The AWS SDK does not recognize service '" +:+ service
                  +:+ "'.") 1)
  | ClientError response _ =>
      let error := get (Error response) (mk_error_dict None None) in
      let code := get (Code error) "Unknown" in
      let msg := get (Message error) (str_exn e) in
      Some (fail ("AWS API error (" +:+ code +:+ "): " +:+ msg) 1)
  | ParamValidationError _ =>
      Some (fail ("Invalid parameter(s): " +:+ str_exn e) 1)
  | KeyboardInterrupt =>
      Some (fail "Interrupted by user." 130)
  | SystemExit _ => None
  | _ => Some (fail ("Unexpected error: " +:+ str_exn e) 1)
  end.

Definition main (sdk : SDK) (args : Namespace) : M Z :=
  let service := strip (lower (args_service args)) in
  let region := strip (args_region args) in
  (if negb (contains SUPPORTED service)
   then fail ("Unsupported service '" +:+ service +:+ "'. "
              +:+ "Supported: " +:+ join ", " (sorted (keys SUPPORTED))) 1
   else ret tt) >>
  let! session := get_session sdk (args_profile args) region in
  try_except
    (let! h := lift (subscript SUPPORTED service) in
     h session region >>
     ret 0%Z)
    (main_handlers service region).

(** How the process ends. *)
Inductive termination : Type :=
| Exit (code : Z)
| Uncaught (e : exn).

(** [sys.exit(main())] in a fresh process. *)
Definition program (sdk : SDK) (args : Namespace) : termination * world :=
  match main sdk args init_world with
  | (Ok code, w) => (Exit code, w)
  | (Raise (SystemExit code), w) => (Exit code, w)
  | (Raise e, w) => (Uncaught e, w)
  end.

(** ** Definitions that follow the specification's words *)

(** The world after some more lines went to standard output. *)
Definition emit (w : world) (lines : list string) : world :=
  mk_world (stdout w ++ lines) (stderr w) (calls w).

(** The world after one more line went to the error stream. *)
Definition emit_err (w : world) (line : string) : world :=
  mk_world (stdout w) (stderr w ++ [line]) (calls w).

(** The world after some more calls into boto3. *)
Definition called (w : world) (cs : list call) : world :=
  mk_world (stdout w) (stderr w) (calls w ++ cs).

(** Renderer, as specified: the width of column [j] is the maximum of the
    length of header [j] and of the length of cell [j] of every row. *)
Definition col_width_spec (rows : list (list string)) (headers : list string)
  (j : nat) : nat :=
  list_max (len (nth j headers "") :: map (fun r => len (nth j r "")) rows).

Definition widths_spec (rows : list (list string)) (headers : list string)
  : list nat :=
  map (col_width_spec rows headers) (seq 0 (length headers)).

(** Cells left-justified to the column widths, in the order of the cells. *)
Definition justify (cells : list string) (widths : list nat) : list string :=
  zip_with ljust cells widths.

(** Header row, separator row, then one line per data row. *)
Definition table_spec (rows : list (list string)) (headers : list string)
  : list string :=
  let ws := widths_spec rows headers in
  join " | " (justify headers ws)
  :: join "-+-" (map (str_mul "-") ws)
  :: map (fun r => join " | " (justify r ws)) rows.

(** One row folded into the widths, position by position. *)
Fixpoint merge_row (widths : list nat) (r : list string) : list nat :=
  match widths, r with
  | w :: ws, c :: r' => Nat.max w (len c) :: merge_row ws r'
  | _, _ => widths
  end.

(** What a handler prints once its rows are collected: the boxed title,
    then the notice or the table. *)
Definition listing (title : string) (rows : list (list string))
  (headers : list string) : list string :=
  [str_mul "=" (len title); title; str_mul "=" (len title)]
  ++ match rows with
     | [] => ["(no resources found)"]
     | _ => table_spec rows headers
     end.

(** The pages a paginator yields, and whether it ends without raising. *)
Fixpoint page_list {A} (ps : pages A) : list A :=
  match ps with
  | Page p rest => p :: page_list rest
  | _ => []
  end.

Fixpoint pages_complete {A} (ps : pages A) : bool :=
  match ps with
  | NoMorePages => true
  | Page _ rest => pages_complete rest
  | PageError _ => false
  end.

(** s3, as specified: a bucket is kept when its location query answers
    and the location, [us-east-1] when none is reported, is the requested
    region. *)
Definition resolved_location (s3 : Client) (b : bucket) : option string :=
  match get_bucket_location s3 (Bucket_Name b) with
  | Ok resp =>
      match LocationConstraint resp with
      | None | Some "" => Some "us-east-1"
      | Some l => Some l
      end
  | Raise _ => None
  end.

Definition s3_selected (s3 : Client) (region : string) (b : bucket) : bool :=
  match resolved_location s3 b with
  | Some l => String.eqb l region
  | None => false
  end.

Definition s3_row (region : string) (b : bucket) : list string :=
  [Bucket_Name b; region; human_ts (CreationDate b)].

(** dynamodb, as specified: one row per table name, with the three
    described fields, or the denial marker and two empty fields. *)
Definition all_table_names (ps : pages tables_page) : list string :=
  concat (map (fun page => get (TableNames page) []) (page_list ps)).

Definition dynamodb_row_spec (ddb : Client) (table : string) : list string :=
  match describe_table ddb table with
  | Ok (mk_describe_table_response (Some desc)) =>
      [table; get (TableStatus desc) "";
       str_int_or_empty (ItemCount desc);
       str_int_or_empty (TableSizeBytes desc)]
  | _ => [table; "(access denied)"; ""; ""]
  end.

(** A describe call that answers with a table, or is denied. *)
Definition describe_answers (ddb : Client) (table : string) : Prop :=
  (exists desc,
     describe_table ddb table = Ok (mk_describe_table_response (Some desc)))
  \/ (exists e, describe_table ddb table = Raise e /\ is_ClientError e = true).

(** ec2, as specified: every instance of every reservation of every page;
    the name is the value of the first tag whose key is [Name]. *)
Definition all_instances (ps : pages ec2_page) : list instance :=
  concat (map (fun page =>
                 concat (map (fun reservation =>
                                get (Instances reservation) [])
                             (get (Reservations page) [])))
              (page_list ps)).

Definition is_Name_tag (t : tag) : bool :=
  match Key t with
  | Some k => String.eqb k "Name"
  | None => false
  end.

Definition name_spec (tags : list tag) : string :=
  match List.find is_Name_tag tags with
  | Some t => get (Value t) ""
  | None => ""
  end.

(** The shape [YYYY-MM-DD HH:MM:SS]: six runs of decimal digits of widths
    4, 2, 2, 2, 2, 2 that read back as the fields of the datetime. *)
Definition is_digit (c : ascii) : bool :=
  ((48 <=? nat_of_ascii c) && (nat_of_ascii c <=? 57))%nat.

Fixpoint all_digits (s : string) : bool :=
  match s with
  | EmptyString => true
  | String c s' => is_digit c && all_digits s'
  end.

Fixpoint N_of_digits_from (acc : N) (s : string) : N :=
  match s with
  | EmptyString => acc
  | String c s' => N_of_digits_from (10 * acc + (N_of_ascii c - 48))%N s'
  end.

Definition N_of_digits (s : string) : N := N_of_digits_from 0%N s.

Definition is_field (width : nat) (value : N) (s : string) : bool :=
  (len s =? width)%nat && all_digits s && (N_of_digits s =? value)%N.

Definition formatted_timestamp (d : datetime) (ts : string) : Prop :=
  exists Y Mo D H Mi S : string,
    ts = Y +:+ "-" +:+ Mo +:+ "-" +:+ D +:+ " " +:+ H +:+ ":" +:+ Mi
         +:+ ":" +:+ S
    /\ is_field 4 (year d) Y = true
    /\ is_field 2 (month d) Mo = true
    /\ is_field 2 (day d) D = true
    /\ is_field 2 (hour d) H = true
    /\ is_field 2 (minute d) Mi = true
    /\ is_field 2 (second d) S = true.

(** The ranges [datetime] enforces.  Below year 1000 the padding of "%Y"
    is left to the C library, so the timestamps considered have a
    four-digit year. *)
Definition four_digit_datetime (d : datetime) : Prop :=
  (1000 <= year d <= 9999
   /\ 1 <= month d <= 12
   /\ 1 <= day d <= 31
   /\ hour d < 24
   /\ minute d < 60
   /\ second d < 60)%N.

(** A computation that only appends to the log of calls. *)
Definition grows {A} (m : M A) : Prop :=
  forall w, exists cs, calls (snd (m w)) = calls w ++ cs.

(** [if profile:] as the argument [profile_name] of the constructor. *)
Definition profile_name_of (profile : option string) : option string :=
  match profile with
  | Some (String _ _ as p) => Some p
  | _ => None
  end.

(** The five service keys. *)
Definition supported_keys : list string :=
  ["ec2"; "s3"; "dynamodb"; "rds"; "lambda"].

(** ** Sample answers of the SDK *)

Definition sample_time : pyval :=
  PDatetime (mk_datetime 2021 3 4 5 6 7 0 (Some 0%Z))%N.

Definition denied : exn :=
  ClientError
    (mk_error_response
       (Some (mk_error_dict (Some "AccessDenied") (Some "Access Denied"))))
    "An error occurred (AccessDenied)".

Definition sample_instance : instance :=
  mk_instance (Some "i-1") (Some "t2.micro")
    (Some (mk_instance_state (Some "running"))) None sample_time
    (Some [mk_tag (Some "Env") (Some "dev");
           mk_tag (Some "Name") (Some "web");
           mk_tag (Some "Name") (Some "db")]).

Definition sample_client : Client :=
  mk_Client
    (Page (mk_ec2_page (Some [mk_reservation (Some [sample_instance])]))
          NoMorePages)
    (Ok (mk_list_buckets_response
           (Some [mk_bucket "logs" sample_time;
                  mk_bucket "secret" PNone;
                  mk_bucket "assets" (PStr "yesterday")])))
    (fun name =>
       if String.eqb name "logs" then Ok (mk_bucket_location_response None)
       else if String.eqb name "secret" then Raise denied
       else Ok (mk_bucket_location_response (Some "eu-west-1")))
    (Page (mk_tables_page (Some ["users"; "audit"]))
          (Page (mk_tables_page (Some ["orders"])) NoMorePages))
    (fun name =>
       if String.eqb name "audit" then Raise denied
       else Ok (mk_describe_table_response
                  (Some (mk_table_description (Some "ACTIVE") (Some 5%Z)
                                              (Some 1024%Z)))))
    NoMorePages
    NoMorePages.

Definition sample_session : Session :=
  mk_Session (fun _ _ => Ok sample_client).

Definition sample_sdk : SDK := mk_SDK (fun _ _ => Ok sample_session).

(** An SDK whose session constructor finds no region. *)
Definition no_region_sdk : SDK :=
  mk_SDK (fun _ _ => Raise (NoRegionError "You must specify a region.")).

(** An SDK whose clients are interrupted, or find no credentials, on the
    first page. *)
Definition failing_session (e : exn) : Session :=
  mk_Session (fun _ _ =>
    Ok (mk_Client (PageError e) (Raise e) (fun _ => Raise e)
                  (PageError e) (fun _ => Raise e)
                  (PageError e) (PageError e))).

Definition failing_sdk (e : exn) : SDK :=
  mk_SDK (fun _ _ => Ok (failing_session e)).

(** ** Further definitions for the handlers and the run as a whole *)

(** The exception that ends a paginator early, if one does. *)
Fixpoint page_error {A} (ps : pages A) : option exn :=
  match ps with
  | NoMorePages => None
  | Page _ rest => page_error rest
  | PageError e => Some e
  end.

(** Pages that arrive before the rest of a paginator. *)
Fixpoint prepend_pages {A} (l : list A) (ps : pages A) : pages A :=
  match l with
  | [] => ps
  | p :: l' => Page p (prepend_pages l' ps)
  end.

Definition all_db_instances (ps : pages rds_page) : list db_instance :=
  concat (map (fun page => get (DBInstances page) []) (page_list ps)).

Definition all_functions (ps : pages lambda_page) : list lambda_function :=
  concat (map (fun page => get (Functions page) []) (page_list ps)).

(** The [region_name] each handler gives to [session.client]: all pass
    the region, except the s3 one, which passes none. *)
Definition client_region (service region : string) : option string :=
  if String.eqb service "s3" then None else Some region.

(** The arguments as [main] reads them. *)
Definition normalized (args : Namespace) : Namespace :=
  mk_Namespace (strip (lower (args_service args)))
               (strip (args_region args))
               (profile_name_of (args_profile args)).

(** An SDK whose session constructor is interrupted from the keyboard. *)
Definition interrupted_sdk : SDK :=
  mk_SDK (fun _ _ => Raise KeyboardInterrupt).

(** A client whose second bucket cannot be located for a reason that is
    not a [ClientError], and whose second table is described without a
    [Table] entry. *)
Definition timeout : exn := OtherException "Read timeout on endpoint".

Definition flaky_client : Client :=
  mk_Client
    NoMorePages
    (Ok (mk_list_buckets_response
           (Some [mk_bucket "logs" sample_time;
                  mk_bucket "slow" PNone;
                  mk_bucket "assets" PNone])))
    (fun name =>
       if String.eqb name "slow" then Raise timeout
       else Ok (mk_bucket_location_response None))
    (Page (mk_tables_page (Some ["users"]))
          (Page (mk_tables_page (Some ["audit"; "orders"])) NoMorePages))
    (fun name =>
       if String.eqb name "audit" then Ok (mk_describe_table_response None)
       else Ok (mk_describe_table_response
                  (Some (mk_table_description (Some "ACTIVE") None None))))
    NoMorePages
    NoMorePages.

Definition flaky_session : Session :=
  mk_Session (fun _ _ => Ok flaky_client).

Definition flaky_sdk : SDK := mk_SDK (fun _ _ => Ok flaky_session).

(** * Properties *)

(** ** The monad *)

Lemma bind_ok {A B} (m : M A) (k : A -> M B) w a w' :
  m w = (Ok a, w') -> bind m k w = k a w'.
Proof. intros H. unfold bind. now rewrite H. Qed.

Lemma bind_raise {A B} (m : M A) (k : A -> M B) w e w' :
  m w = (Raise e, w') -> bind m k w = (Raise e, w').
Proof. intros H. unfold bind. now rewrite H. Qed.

Lemma emit_emit w l1 l2 : emit (emit w l1) l2 = emit w (l1 ++ l2).
Proof. unfold emit. simpl. now rewrite <- app_assoc. Qed.

Lemma emit_nil w : emit w [] = w.
Proof. destruct w. unfold emit. simpl. now rewrite app_nil_r. Qed.

Lemma print_emit s w : print s w = (Ok tt, emit w [s]).
Proof. reflexivity. Qed.

(** ** Column widths *)

Section Widths.

Lemma insert_middle {A} (pre : list A) x y l :
  <[length pre := y]> (pre ++ x :: l) = pre ++ y :: l.
Proof.
  rewrite insert_app_r_alt by lia. now rewrite Nat.sub_diag.
Qed.

Lemma merge_row_length ws r : length (merge_row ws r) = length ws.
Proof.
  revert r. induction ws as [|w ws IH]; intros [|c r]; simpl; auto.
Qed.

(** The inner loop on a row that fits: every position is widened. *)
Lemma widen_fits r : forall pre ws,
  length r <= length ws ->
  rfoldl widen (pre ++ ws) (enumerate_from (length pre) r)
  = Ok (pre ++ merge_row ws r).
Proof.
  induction r as [|c r IH]; intros pre ws Hlen; simpl.
  - now destruct ws.
  - destruct ws as [|w ws]; simpl in Hlen; [lia|].
    unfold widen at 1, getitem. simpl.
    rewrite list_lookup_middle by reflexivity. simpl.
    rewrite insert_middle.
    replace (pre ++ Nat.max w (len c) :: ws)
      with ((pre ++ [Nat.max w (len c)]) ++ ws)
      by now rewrite <- app_assoc.
    replace (S (length pre)) with (length (pre ++ [Nat.max w (len c)]))
      by (rewrite length_app; simpl; lia).
    rewrite IH by lia. now rewrite <- app_assoc.
Qed.

(** The inner loop on a row with too many cells: the read of
    [widths[i]] past the end raises. *)
Lemma widen_overflows r : forall pre ws,
  length ws < length r ->
  rfoldl widen (pre ++ ws) (enumerate_from (length pre) r)
  = Raise (IndexError "list index out of range").
Proof.
  induction r as [|c r IH]; intros pre ws Hlen; simpl in *; [lia|].
  destruct ws as [|w ws].
  - unfold widen at 1, getitem. simpl.
    rewrite app_nil_r, lookup_ge_None_2 by lia. reflexivity.
  - unfold widen at 1, getitem. simpl.
    rewrite list_lookup_middle by reflexivity. simpl.
    rewrite insert_middle.
    replace (pre ++ Nat.max w (len c) :: ws)
      with ((pre ++ [Nat.max w (len c)]) ++ ws)
      by now rewrite <- app_assoc.
    replace (S (length pre)) with (length (pre ++ [Nat.max w (len c)]))
      by (rewrite length_app; simpl; lia).
    apply IH. simpl in Hlen. lia.
Qed.

Lemma widen_row_fits ws r :
  length r <= length ws ->
  rfoldl widen ws (enumerate r) = Ok (merge_row ws r).
Proof. intros H. exact (widen_fits r [] ws H). Qed.

Lemma widen_row_overflows ws r :
  length ws < length r ->
  rfoldl widen ws (enumerate r)
  = Raise (IndexError "list index out of range").
Proof. intros H. exact (widen_overflows r [] ws H). Qed.

Lemma fold_merge_length rows : forall ws,
  length (fold_left merge_row rows ws) = length ws.
Proof.
  induction rows as [|r rows IH]; intros ws; simpl; [reflexivity|].
  now rewrite IH, merge_row_length.
Qed.

(** The outer loop when no row is longer than the widths. *)
Lemma widen_rows_fit rows : forall ws,
  Forall (fun r => length r <= length ws) rows ->
  rfoldl (fun widths r => rfoldl widen widths (enumerate r)) ws rows
  = Ok (fold_left merge_row rows ws).
Proof.
  induction rows as [|r rows IH]; intros ws Hall; simpl; [reflexivity|].
  inversion Hall as [|? ? Hr Hrest]; subst.
  rewrite widen_row_fits by exact Hr. simpl.
  apply IH. now rewrite merge_row_length.
Qed.

(** The outer loop when some row is longer than the widths. *)
Lemma widen_rows_overflow rows : forall ws,
  Exists (fun r => length ws < length r) rows ->
  rfoldl (fun widths r => rfoldl widen widths (enumerate r)) ws rows
  = Raise (IndexError "list index out of range").
Proof.
  induction rows as [|r rows IH]; intros ws Hex; simpl.
  - inversion Hex.
  - destruct (le_lt_dec (length r) (length ws)) as [Hle|Hlt].
    + rewrite widen_row_fits by exact Hle. simpl.
      apply IH. rewrite merge_row_length.
      inversion Hex as [? ? Hr|? ? Hrest]; subst; [lia|exact Hrest].
    + now rewrite widen_row_overflows.
Qed.

End Widths.

(** ** The widths are the specified column maxima *)

Lemma nth_merge_row ws r j :
  length r <= length ws ->
  nth j (merge_row ws r) 0 = Nat.max (nth j ws 0) (len (nth j r "")).
Proof.
  revert r j. induction ws as [|w ws IH]; intros [|c r] j Hlen;
    simpl in *; try lia.
  - now destruct j.
  - destruct j; simpl; lia.
  - destruct j; [reflexivity|]. apply IH. lia.
Qed.

Lemma nth_fold_merge rows j : forall ws,
  Forall (fun r => length r <= length ws) rows ->
  nth j (fold_left merge_row rows ws) 0
  = Nat.max (nth j ws 0) (list_max (map (fun r => len (nth j r "")) rows)).
Proof.
  induction rows as [|r rows IH]; intros ws Hall; simpl.
  - lia.
  - inversion Hall as [|? ? Hr Hrest]; subst.
    rewrite IH by now rewrite merge_row_length.
    rewrite nth_merge_row by exact Hr. lia.
Qed.

Lemma fold_merge_spec rows headers :
  Forall (fun r => length r <= length headers) rows ->
  fold_left merge_row rows (map len headers) = widths_spec rows headers.
Proof.
  intros Hall. unfold widths_spec.
  apply (nth_ext _ _ 0 (col_width_spec rows headers 0)).
  - now rewrite fold_merge_length, !length_map, length_seq.
  - intros j Hj.
    rewrite fold_merge_length, length_map in Hj.
    rewrite nth_fold_merge by now rewrite length_map.
    rewrite (map_nth (col_width_spec rows headers)), seq_nth by exact Hj.
    unfold col_width_spec.
    change (list_max (?x :: ?l)) with (Nat.max x (list_max l)).
    change 0 with (len "") at 1.
    now rewrite (map_nth len headers "" j).
Qed.

Lemma column_widths_fit rows headers :
  Forall (fun r => length r <= length headers) rows ->
  column_widths rows headers = Ok (widths_spec rows headers).
Proof.
  intros Hall. unfold column_widths.
  rewrite widen_rows_fit by now rewrite length_map.
  now rewrite fold_merge_spec.
Qed.

Lemma column_widths_overflow rows headers :
  Exists (fun r => length headers < length r) rows ->
  column_widths rows headers = Raise (IndexError "list index out of range").
Proof.
  intros Hex. unfold column_widths.
  apply widen_rows_overflow. now rewrite length_map.
Qed.

Lemma widths_spec_length rows headers :
  length (widths_spec rows headers) = length headers.
Proof. unfold widths_spec. now rewrite length_map, length_seq. Qed.

(** ** The three kinds of line *)

Lemma header_cells ws : forall hs i,
  i + length hs <= length ws ->
  rmap (fun ih => let? w := getitem ws (fst ih) in Ok (ljust (snd ih) w))
       (enumerate_from i hs)
  = Ok (justify hs (drop i ws)).
Proof.
  induction hs as [|h hs IH]; intros i Hlen; simpl in *.
  - reflexivity.
  - destruct (lookup_lt_is_Some_2 ws i) as [w Hw]; [lia|].
    unfold getitem at 1. rewrite Hw. simpl.
    rewrite IH by lia. simpl.
    rewrite (drop_S _ _ _ Hw). reflexivity.
Qed.

Lemma separator_runs ws : forall n i,
  i + n = length ws ->
  rmap (fun i => let? w := getitem ws i in Ok (str_mul "-" w)) (seq i n)
  = Ok (map (str_mul "-") (drop i ws)).
Proof.
  induction n as [|n IH]; intros i Hlen; simpl.
  - rewrite drop_ge by lia. reflexivity.
  - destruct (lookup_lt_is_Some_2 ws i) as [w Hw]; [lia|].
    unfold getitem at 1. rewrite Hw. simpl.
    rewrite IH by lia. simpl.
    rewrite (drop_S _ _ _ Hw). reflexivity.
Qed.

Lemma row_cells ws r : forall n i,
  i + n = length r ->
  length r <= length ws ->
  rmap (fun i =>
          let? c := getitem r i in
          let? w := getitem ws i in
          Ok (ljust c w)) (seq i n)
  = Ok (justify (drop i r) (drop i ws)).
Proof.
  induction n as [|n IH]; intros i Hlen Hws; simpl.
  - rewrite (drop_ge r) by lia. reflexivity.
  - destruct (lookup_lt_is_Some_2 r i) as [c Hc]; [lia|].
    destruct (lookup_lt_is_Some_2 ws i) as [w Hw]; [lia|].
    unfold getitem at 1. rewrite Hc. simpl.
    unfold getitem at 1. rewrite Hw. simpl.
    rewrite IH by lia. simpl.
    rewrite (drop_S _ _ _ Hc), (drop_S _ _ _ Hw). reflexivity.
Qed.

(** A row with fewer cells than headers: [r[i]] raises at the first
    missing cell. *)
Lemma row_cells_short ws r : forall n i,
  i <= length r ->
  length r < i + n ->
  i + n <= length ws ->
  rmap (fun i =>
          let? c := getitem r i in
          let? w := getitem ws i in
          Ok (ljust c w)) (seq i n)
  = Raise (IndexError "list index out of range").
Proof.
  induction n as [|n IH]; intros i Hi Hlen Hws; simpl; [lia|].
  destruct (Nat.eq_dec i (length r)) as [->|Hne].
  - unfold getitem at 1. rewrite lookup_ge_None_2 by lia. reflexivity.
  - destruct (lookup_lt_is_Some_2 r i) as [c Hc]; [lia|].
    destruct (lookup_lt_is_Some_2 ws i) as [w Hw]; [lia|].
    unfold getitem at 1. rewrite Hc. simpl.
    unfold getitem at 1. rewrite Hw. simpl.
    rewrite IH by lia. reflexivity.
Qed.

Lemma row_line_fits ws headers r :
  length r = length headers ->
  length headers <= length ws ->
  row_line ws headers r = Ok (join " | " (justify r ws)).
Proof.
  intros Hr Hws. unfold row_line.
  rewrite row_cells by lia. reflexivity.
Qed.

Lemma row_line_short ws headers r :
  length r < length headers ->
  length headers <= length ws ->
  row_line ws headers r = Raise (IndexError "list index out of range").
Proof.
  intros Hr Hws. unfold row_line.
  rewrite row_cells_short by lia. reflexivity.
Qed.

(** ** The loop that prints the rows *)

Lemma print_rows_fit ws headers rows : forall w,
  Forall (fun r => length r = length headers) rows ->
  length headers <= length ws ->
  for_each rows (fun r =>
    let! line := lift (row_line ws headers r) in print line) w
  = (Ok tt, emit w (map (fun r => join " | " (justify r ws)) rows)).
Proof.
  induction rows as [|r rows IH]; intros w Hall Hws; simpl.
  - unfold ret. now rewrite emit_nil.
  - inversion Hall as [|? ? Hr Hrest]; subst.
    unfold bind at 1. unfold bind at 1. unfold lift at 1.
    rewrite row_line_fits by assumption.
    rewrite print_emit, IH by assumption.
    now rewrite emit_emit.
Qed.

Lemma print_rows_short ws headers pre r post : forall w,
  Forall (fun r => length r = length headers) pre ->
  length r < length headers ->
  length headers <= length ws ->
  for_each (pre ++ r :: post) (fun r =>
    let! line := lift (row_line ws headers r) in print line) w
  = (Raise (IndexError "list index out of range"),
     emit w (map (fun r => join " | " (justify r ws)) pre)).
Proof.
  induction pre as [|p pre IH]; intros w Hall Hr Hws; simpl.
  - unfold bind at 1. unfold bind at 1. unfold lift at 1.
    rewrite row_line_short by assumption. now rewrite emit_nil.
  - inversion Hall as [|? ? Hp Hrest]; subst.
    unfold bind at 1. unfold bind at 1. unfold lift at 1.
    rewrite row_line_fits by assumption.
    rewrite print_emit, IH by assumption.
    now rewrite emit_emit.
Qed.

(** ** [print_table] as a whole *)

(** What [print_table] does up to the loop over the rows, when no row is
    longer than the headers. *)
Lemma print_table_unfold rows headers w :
  rows <> [] ->
  Forall (fun r => length r <= length headers) rows ->
  print_table rows headers w
  = for_each rows (fun r =>
      let! line := lift (row_line (widths_spec rows headers) headers r) in
      print line)
      (emit w [join " | " (justify headers (widths_spec rows headers));
               join "-+-" (map (str_mul "-") (widths_spec rows headers))]).
Proof.
  intros Hne Hall. destruct rows as [|r0 rows0]; [congruence|].
  unfold print_table.
  set (rows := r0 :: rows0) in *.
  unfold bind at 1. unfold lift at 1.
  rewrite column_widths_fit by exact Hall.
  unfold bind at 1. unfold lift at 1. unfold enumerate.
  rewrite header_cells by (rewrite widths_spec_length; simpl; lia).
  unfold bind at 1. unfold lift at 1.
  rewrite separator_runs by (rewrite widths_spec_length; simpl; lia).
  simpl rbind. rewrite !drop_0.
  unfold bind at 1. rewrite print_emit.
  unfold bind at 1. rewrite print_emit.
  now rewrite emit_emit.
Qed.

Lemma print_table_fits rows headers w :
  rows <> [] ->
  Forall (fun r => length r = length headers) rows ->
  print_table rows headers w = (Ok tt, emit w (table_spec rows headers)).
Proof.
  intros Hne Hall.
  rewrite print_table_unfold; [|exact Hne|].
  - rewrite print_rows_fit; [|exact Hall|rewrite widths_spec_length; lia].
    now rewrite emit_emit.
  - eapply Forall_impl; [exact Hall|]. simpl. intros r Hr. lia.
Qed.

Lemma print_table_overflow rows headers w :
  Exists (fun r => length headers < length r) rows ->
  print_table rows headers w
  = (Raise (IndexError "list index out of range"), w).
Proof.
  intros Hex. destruct rows as [|r0 rows0]; [inversion Hex|].
  unfold print_table.
  set (rows := r0 :: rows0) in *.
  unfold bind at 1. unfold lift at 1.
  now rewrite column_widths_overflow.
Qed.

Lemma print_table_short pre r post headers w :
  Forall (fun r => length r = length headers) pre ->
  length r < length headers ->
  Forall (fun r => length r <= length headers) post ->
  print_table (pre ++ r :: post) headers w
  = (Raise (IndexError "list index out of range"),
     emit w
       (let ws := widths_spec (pre ++ r :: post) headers in
        join " | " (justify headers ws)
        :: join "-+-" (map (str_mul "-") ws)
        :: map (fun r => join " | " (justify r ws)) pre)).
Proof.
  intros Hpre Hr Hpost.
  rewrite print_table_unfold.
  - rewrite print_rows_short;
      [|exact Hpre|exact Hr|rewrite widths_spec_length; lia].
    now rewrite emit_emit.
  - now destruct pre.
  - apply Forall_app. split.
    + eapply Forall_impl; [exact Hpre|]. simpl. intros x Hx. lia.
    + constructor; [lia|exact Hpost].
Qed.

(** ** Renderer: the claims *)

Lemma str_mul_char_length c n : len (str_mul (String c "") n) = n.
Proof.
  unfold len. induction n as [|n IH]; simpl; [reflexivity|]. now f_equal.
Qed.

Lemma str_mul_char_get c n i :
  i < n -> String.get i (str_mul (String c "") n) = Some c.
Proof.
  revert i. induction n as [|n IH]; intros i Hi; [lia|].
  destruct i as [|i]; simpl; [reflexivity|]. apply IH. lia.
Qed.

(** C5.  For a non-empty list of rows that all have as many cells as there
    are headers, the width loop yields, for each column, the maximum of the
    header's length and of every row's cell length in that column, and
    [print_table] prints the header cells left-justified to those widths
    and joined by " | ", a row of dash runs of those widths joined by
    "-+-", then every row's cells left-justified to the same widths and
    joined by " | ", cell [i] under header [i]. *)
Theorem print_table_renders_aligned_table
  (rows : list (list string)) (headers : list string) (w : world) :
  rows <> [] ->
  Forall (fun r => length r = length headers) rows ->
  column_widths rows headers
  = Ok (map (fun j =>
               list_max (len (nth j headers "")
                         :: map (fun r => len (nth j r "")) rows))
            (seq 0 (length headers)))
  /\ print_table rows headers w
     = (Ok tt,
        emit w
          (join " | " (zip_with ljust headers (widths_spec rows headers))
           :: join "-+-" (map (str_mul "-") (widths_spec rows headers))
           :: map (fun r =>
                     join " | "
                       (zip_with ljust r (widths_spec rows headers)))
                  rows)).
Proof.
  intros Hne Hall. split.
  - apply column_widths_fit.
    eapply Forall_impl; [exact Hall|]. simpl. intros r Hr. lia.
  - now apply print_table_fits.
Qed.

Lemma print_table_renders_aligned_table_witness :
  print_table [["i-1"; "running"]; ["i-0042"; "stopped"]] ["Id"; "State"]
    init_world
  = (Ok tt,
     mk_world ["Id     | State  ";
               "-------+--------";
               "i-1    | running";
               "i-0042 | stopped"] [] []).
Proof.
  apply (proj2 (print_table_renders_aligned_table
                  [["i-1"; "running"]; ["i-0042"; "stopped"]]
                  ["Id"; "State"] init_world
                  ltac:(discriminate)
                  ltac:(repeat constructor))).
Defined.

(** C6.  With no rows, the output of a listing is the line of "=" as long
    as the title, the title, the same line of "=", and the single line
    "(no resources found)"; nothing else is printed, whatever the headers. *)
Theorem empty_listing_prints_header_and_notice
  (title : string) (headers : list string) (w : world) :
  (print_header title >> print_table [] headers) w
  = (Ok tt,
     emit w [str_mul "=" (len title); title; str_mul "=" (len title);
             "(no resources found)"])
  /\ len (str_mul "=" (len title)) = len title
  /\ (forall i, i < len title ->
        String.get i (str_mul "=" (len title)) = Some "="%char).
Proof.
  split; [|split].
  - unfold print_header, print_table, bind, print, emit. simpl.
    now rewrite <- !app_assoc.
  - apply str_mul_char_length.
  - intros i Hi. now apply str_mul_char_get.
Qed.

(** C10.  [print_table] on a non-empty list of rows:
    - when every row has as many cells as there are headers it returns
      without raising and each row's line joins exactly one cell per
      header;
    - when some row has more cells than there are headers it raises
      [IndexError] in the width loop, before anything is printed;
    - when no row has more cells and some row has fewer, the widths, the
      header row and the separator are produced, the rows before the first
      short one are printed, and [IndexError] is raised while that row is
      printed. *)
Theorem print_table_total_on_rectangular_rows
  (rows : list (list string)) (headers : list string) (w : world) :
  rows <> [] ->
  (Forall (fun r => length r = length headers) rows ->
     print_table rows headers w = (Ok tt, emit w (table_spec rows headers))
     /\ Forall (fun r =>
                  length (justify r (widths_spec rows headers))
                  = length headers) rows)
  /\ (Exists (fun r => length headers < length r) rows ->
        column_widths rows headers
        = Raise (IndexError "list index out of range")
        /\ print_table rows headers w
           = (Raise (IndexError "list index out of range"), w))
  /\ (forall pre r post,
        rows = pre ++ r :: post ->
        Forall (fun r => length r = length headers) pre ->
        length r < length headers ->
        Forall (fun r => length r <= length headers) post ->
        column_widths rows headers = Ok (widths_spec rows headers)
        /\ row_line (widths_spec rows headers) headers r
           = Raise (IndexError "list index out of range")
        /\ print_table rows headers w
           = (Raise (IndexError "list index out of range"),
              emit w
                (join " | " (justify headers (widths_spec rows headers))
                 :: join "-+-" (map (str_mul "-") (widths_spec rows headers))
                 :: map (fun r =>
                           join " | "
                             (justify r (widths_spec rows headers)))
                        pre))).
Proof.
  intros Hne. split; [|split].
  - intros Hall. split; [now apply print_table_fits|].
    eapply Forall_impl; [exact Hall|]. simpl. intros r Hr.
    unfold justify. rewrite length_zip_with, widths_spec_length. lia.
  - intros Hex. split.
    + now apply column_widths_overflow.
    + now apply print_table_overflow.
  - intros pre r post -> Hpre Hr Hpost. split; [|split].
    + apply column_widths_fit. apply Forall_app. split.
      * eapply Forall_impl; [exact Hpre|]. simpl. intros x Hx. lia.
      * constructor; [lia|exact Hpost].
    + apply row_line_short; [exact Hr|rewrite widths_spec_length; lia].
    + now apply print_table_short.
Qed.

Lemma print_table_total_on_rectangular_rows_witness :
  print_table [["a"; "b"]] ["h1"; "h2"] init_world
  = (Ok tt, mk_world ["h1 | h2"; "---+---"; "a  | b "] [] [])
  /\ print_table [["a"; "b"; "c"]] ["h1"; "h2"] init_world
     = (Raise (IndexError "list index out of range"), init_world)
  /\ print_table [["a"; "b"]; ["c"]] ["h1"; "h2"] init_world
     = (Raise (IndexError "list index out of range"),
        mk_world ["h1 | h2"; "---+---"; "a  | b "] [] []).
Proof.
  split; [|split].
  - apply (proj1 (print_table_total_on_rectangular_rows
                    [["a"; "b"]] ["h1"; "h2"] init_world
                    ltac:(discriminate))).
    repeat constructor.
  - apply (proj1 (proj2 (print_table_total_on_rectangular_rows
                           [["a"; "b"; "c"]] ["h1"; "h2"] init_world
                           ltac:(discriminate)))).
    constructor. simpl. lia.
  - apply (proj2 (proj2 (print_table_total_on_rectangular_rows
                           [["a"; "b"]; ["c"]] ["h1"; "h2"] init_world
                           ltac:(discriminate)))
             [["a"; "b"]] ["c"] []).
    + reflexivity.
    + repeat constructor.
    + simpl. lia.
    + constructor.
Defined.

(** ** Loops that collect rows *)

Lemma fold_left_snoc {A B} (f : A -> B) l : forall acc,
  fold_left (fun rows x => rows ++ [f x]) l acc = acc ++ map f l.
Proof.
  induction l as [|x l IH]; intros acc; simpl.
  - now rewrite app_nil_r.
  - now rewrite IH, <- app_assoc.
Qed.

Lemma fold_left_extend {A B} (h : A -> list B) l : forall acc,
  fold_left (fun rows x => rows ++ h x) l acc = acc ++ concat (map h l).
Proof.
  induction l as [|x l IH]; intros acc; simpl.
  - now rewrite app_nil_r.
  - now rewrite IH, <- app_assoc.
Qed.

Lemma fold_left_pointwise {A B} (f g : A -> B -> A) l : forall acc,
  (forall a x, f a x = g a x) ->
  fold_left f l acc = fold_left g l acc.
Proof.
  induction l as [|x l IH]; intros acc Hfg; simpl; [reflexivity|].
  rewrite Hfg. now apply IH.
Qed.

(** A paginator that ends without raising, with a body that only appends. *)
Lemma for_pages_collect {A B} (body : list B -> A -> result (list B))
  (g : A -> list B) (ps : pages A) : forall acc,
  pages_complete ps = true ->
  (forall rows p, In p (page_list ps) -> body rows p = Ok (rows ++ g p)) ->
  for_pages ps body acc = Ok (acc ++ concat (map g (page_list ps))).
Proof.
  induction ps as [|p rest IH|e]; intros acc Hc Hbody; simpl in *.
  - now rewrite app_nil_r.
  - rewrite Hbody by now left. simpl.
    rewrite IH; [now rewrite <- app_assoc|exact Hc|].
    intros rows q Hq. apply Hbody. now right.
  - discriminate.
Qed.

(** A paginator that raises: the handler raises the same exception. *)
Lemma for_pages_error {A R} (body : R -> A -> result R) e acc :
  for_pages (PageError e) body acc = Raise e.
Proof. reflexivity. Qed.

(** ** Handlers: the common frame *)

Lemma called_emit w cs lines :
  emit (called w cs) lines
  = mk_world (stdout w ++ lines) (stderr w) (calls w ++ cs).
Proof. reflexivity. Qed.

Lemma client_ok session service_name region_name c w :
  make_client session service_name region_name = Ok c ->
  client session service_name region_name w
  = (Ok c, called w [CallClient service_name region_name]).
Proof.
  intros H. unfold client, bind, log_call, lift, called. simpl.
  now rewrite H.
Qed.

Lemma print_listing title rows headers w :
  Forall (fun r => length r = length headers) rows ->
  (print_header title >> print_table rows headers) w
  = (Ok tt, emit w (listing title rows headers)).
Proof.
  intros Hall.
  assert (Hh : print_header title w
               = (Ok tt, emit w [str_mul "=" (len title); title;
                                 str_mul "=" (len title)])).
  { unfold print_header, bind, print, emit. simpl.
    now rewrite <- !app_assoc. }
  unfold bind at 1. rewrite Hh. unfold listing.
  destruct rows as [|r rows].
  - simpl print_table. rewrite print_emit. now rewrite emit_emit.
  - rewrite print_table_fits; [|discriminate|exact Hall].
    now rewrite emit_emit.
Qed.

(** ** Timestamps *)

Lemma zpad2_table :
  forallb (fun n => is_field 2 (N.of_nat n) (zpad 2 (N.of_nat n)))
          (seq 0 100) = true.
Proof. vm_compute. reflexivity. Qed.

Lemma zpad4_table :
  forallb (fun n => is_field 4 (N.of_nat n) (zpad 4 (N.of_nat n)))
          (seq (10 * 100) (90 * 100)) = true.
Proof. vm_compute. reflexivity. Qed.

Lemma zpad2_field n : (n < 100)%N -> is_field 2 n (zpad 2 n) = true.
Proof.
  intros Hn. pose proof zpad2_table as T.
  rewrite forallb_forall in T.
  specialize (T (N.to_nat n)). rewrite N2Nat.id in T.
  apply T. apply in_seq. lia.
Qed.

Lemma zpad4_field n : (1000 <= n <= 9999)%N -> is_field 4 n (zpad 4 n) = true.
Proof.
  intros Hn. pose proof zpad4_table as T.
  rewrite forallb_forall in T.
  specialize (T (N.to_nat n)). rewrite N2Nat.id in T.
  apply T. apply in_seq. lia.
Qed.

Lemma human_ts_datetime d :
  four_digit_datetime d -> formatted_timestamp d (human_ts (PDatetime d)).
Proof.
  intros (Hy & Hmo & Hd & Hh & Hmi & Hs).
  exists (zpad 4 (year d)), (zpad 2 (month d)), (zpad 2 (day d)),
         (zpad 2 (hour d)), (zpad 2 (minute d)), (zpad 2 (second d)).
  split; [reflexivity|].
  repeat split; (apply zpad4_field || apply zpad2_field); lia.
Qed.

Lemma human_ts_fallback v :
  (forall d, v <> PDatetime d) -> human_ts v = str v.
Proof.
  intros Hv. destruct v as [| | |d]; try reflexivity.
  now destruct (Hv d).
Qed.

Lemma name_tag_spec tags : name_tag tags = name_spec tags.
Proof.
  unfold name_spec. induction tags as [|t tags IH]; simpl; [reflexivity|].
  unfold is_Name_tag at 1. destruct (Key t) as [k|]; [|exact IH].
  destruct (String.eqb k "Name"); [reflexivity|exact IH].
Qed.

(** ** s3 *)

Lemma resolved_location_or resp s3 b :
  get_bucket_location s3 (Bucket_Name b) = Ok resp ->
  resolved_location s3 b = Some (or_us_east_1 (LocationConstraint resp)).
Proof.
  intros H. unfold resolved_location. rewrite H.
  destruct (LocationConstraint resp) as [[|c l]|]; reflexivity.
Qed.

Lemma s3_loop s3 region buckets : forall acc,
  (forall b e, In b buckets ->
     get_bucket_location s3 (Bucket_Name b) = Raise e ->
     is_ClientError e = true) ->
  rfoldl (s3_step s3 region) acc buckets
  = Ok (acc ++ map (s3_row region)
                   (List.filter (s3_selected s3 region) buckets)).
Proof.
  induction buckets as [|b buckets IH]; intros acc Hce; simpl.
  - now rewrite app_nil_r.
  - assert (Hrest : forall b' e, In b' buckets ->
              get_bucket_location s3 (Bucket_Name b') = Raise e ->
              is_ClientError e = true)
      by (intros b' e Hin; apply Hce; now right).
    unfold s3_step at 1, s3_selected at 1.
    destruct (get_bucket_location s3 (Bucket_Name b)) as [resp|e] eqn:Hloc.
    + rewrite (resolved_location_or resp) by exact Hloc.
      destruct (String.eqb_spec (or_us_east_1 (LocationConstraint resp))
                                region) as [Heq|Hne]; simpl.
      * rewrite IH by exact Hrest. rewrite Heq.
        now rewrite <- app_assoc.
      * now apply IH.
    + unfold resolved_location. rewrite Hloc.
      rewrite (Hce b e) by (now left || exact Hloc). simpl.
      now apply IH.
Qed.

Lemma s3_row_selected s3 region buckets b :
  In b buckets ->
  In (s3_row region b)
     (map (s3_row region) (List.filter (s3_selected s3 region) buckets))
  <-> resolved_location s3 b = Some region.
Proof.
  intros Hin. unfold s3_selected. split.
  - intros Hrow. apply in_map_iff in Hrow as (b' & Hrow & Hb').
    apply filter_In in Hb' as [_ Hsel].
    assert (Hname : Bucket_Name b' = Bucket_Name b)
      by (unfold s3_row in Hrow; congruence).
    unfold resolved_location in *. rewrite Hname in Hsel.
    destruct (get_bucket_location s3 (Bucket_Name b)) as [resp|e];
      [|discriminate].
    destruct (LocationConstraint resp) as [[|c l]|];
      apply String.eqb_eq in Hsel; now rewrite Hsel.
  - intros Hres. apply in_map. apply filter_In. split; [exact Hin|].
    rewrite Hres. apply String.eqb_refl.
Qed.

(** C1.  When the s3 client is obtained, the buckets are listed and every
    location query either answers or raises a [ClientError], [list_s3]
    returns normally and prints the listing of exactly the buckets whose
    resolved location is the requested region, in the order of the
    listing: a bucket is rendered if and only if its resolved location
    equals the region; a bucket that reports no location constraint
    resolves to us-east-1; a bucket whose query raises a [ClientError] has
    no resolved location, so it is left out of the rows, and nothing is
    written to the error stream. *)
Theorem list_s3_keeps_buckets_of_the_region
  (session : Session) (region : string) (w : world)
  (s3 : Client) (resp : list_buckets_response) :
  make_client session "s3" None = Ok s3 ->
  list_buckets s3 = Ok resp ->
  (forall b e, In b (get (Buckets resp) []) ->
     get_bucket_location s3 (Bucket_Name b) = Raise e ->
     is_ClientError e = true) ->
  let buckets := get (Buckets resp) [] in
  let rows :=
    map (s3_row region) (List.filter (s3_selected s3 region) buckets) in
  list_s3 session region w
  = (Ok tt,
     emit (called w [CallClient "s3" None])
          (listing ("S3 Buckets in " +:+ region) rows
                   ["BucketName"; "Region"; "CreationDate"]))
  /\ stderr (snd (list_s3 session region w)) = stderr w
  /\ (forall b, In b buckets ->
        (In (s3_row region b) rows <-> resolved_location s3 b = Some region))
  /\ (forall b,
        get_bucket_location s3 (Bucket_Name b)
        = Ok (mk_bucket_location_response None) ->
        resolved_location s3 b = Some "us-east-1")
  /\ (forall b e, In b buckets ->
        get_bucket_location s3 (Bucket_Name b) = Raise e ->
        resolved_location s3 b = None /\ ~ In (s3_row region b) rows).
Proof.
  intros Hclient Hlist Hce buckets rows.
  assert (Hrun : list_s3 session region w
                 = (Ok tt,
                    emit (called w [CallClient "s3" None])
                      (listing ("S3 Buckets in " +:+ region) rows
                         ["BucketName"; "Region"; "CreationDate"]))).
  { unfold list_s3.
    rewrite (bind_ok _ _ _ _ _ (client_ok _ _ _ _ w Hclient)).
    unfold bind at 1. unfold lift at 1. rewrite Hlist.
    unfold bind at 1. unfold lift at 1.
    rewrite s3_loop by exact Hce. simpl app.
    apply print_listing.
    apply List.Forall_forall. intros r Hr.
    apply in_map_iff in Hr as (b & <- & _). reflexivity. }
  split; [exact Hrun|]. split; [now rewrite Hrun|]. split; [|split].
  - intros b Hb. now apply s3_row_selected.
  - intros b Hloc. unfold resolved_location. now rewrite Hloc.
  - intros b e Hb Hloc.
    assert (Hnone : resolved_location s3 b = None)
      by (unfold resolved_location; now rewrite Hloc).
    split; [exact Hnone|].
    intros Hrow. apply (s3_row_selected s3 region buckets b Hb) in Hrow.
    congruence.
Qed.

Lemma list_s3_keeps_buckets_of_the_region_witness :
  list_s3 sample_session "us-east-1" init_world
  = (Ok tt,
     mk_world ["======================="; "S3 Buckets in us-east-1";
               "=======================";
               "BucketName | Region    | CreationDate       ";
               "-----------+-----------+--------------------";
               "logs       | us-east-1 | 2021-03-04 05:06:07"]
              [] [CallClient "s3" None]).
Proof.
  apply (proj1 (list_s3_keeps_buckets_of_the_region
                  sample_session "us-east-1" init_world sample_client
                  (mk_list_buckets_response
                     (Some [mk_bucket "logs" sample_time;
                            mk_bucket "secret" PNone;
                            mk_bucket "assets" (PStr "yesterday")]))
                  eq_refl eq_refl
                  ltac:(simpl; intros b e [<-|[<-|[<-|[]]]] H;
                        vm_compute in H; inversion H; reflexivity))).
Defined.

(** ** dynamodb *)

Lemma dynamodb_step_spec ddb rows table :
  describe_answers ddb table ->
  dynamodb_step ddb rows table = Ok (rows ++ [dynamodb_row_spec ddb table]).
Proof.
  unfold dynamodb_step, dynamodb_describe, dynamodb_row_spec.
  intros [[desc H]|[e [H Hce]]]; rewrite H; simpl.
  - reflexivity.
  - now rewrite Hce.
Qed.

Lemma dynamodb_loop ddb tables : forall rows,
  (forall t, In t tables -> describe_answers ddb t) ->
  rfoldl (dynamodb_step ddb) rows tables
  = Ok (rows ++ map (dynamodb_row_spec ddb) tables).
Proof.
  induction tables as [|t tables IH]; intros rows Hall; simpl.
  - now rewrite app_nil_r.
  - rewrite dynamodb_step_spec by (apply Hall; now left). simpl.
    rewrite IH by (intros t' Ht'; apply Hall; now right).
    now rewrite <- app_assoc.
Qed.

Lemma in_all_table_names ps page t :
  In page (page_list ps) ->
  In t (get (TableNames page) []) ->
  In t (all_table_names ps).
Proof.
  intros Hp Ht. unfold all_table_names. apply in_concat.
  exists (get (TableNames page) []). split; [|exact Ht].
  apply in_map_iff. now exists page.
Qed.

Lemma dynamodb_pages ddb ps :
  pages_complete ps = true ->
  (forall t, In t (all_table_names ps) -> describe_answers ddb t) ->
  for_pages ps
    (fun rows page =>
       rfoldl (dynamodb_step ddb) rows (get (TableNames page) []))
    []
  = Ok (map (dynamodb_row_spec ddb) (all_table_names ps)).
Proof.
  intros Hc Hall.
  rewrite (for_pages_collect _
             (fun page => map (dynamodb_row_spec ddb)
                              (get (TableNames page) [])) ps [] Hc).
  - simpl. unfold all_table_names.
    now rewrite concat_map, map_map.
  - intros rows page Hpage. apply dynamodb_loop.
    intros t Ht. apply Hall. now apply (in_all_table_names ps page).
Qed.

(** C2.  When the dynamodb client is obtained, the pagination of the table
    names ends without raising and every describe call either answers
    with a table or raises a [ClientError], [list_dynamodb] returns
    normally and prints one row per table name, in the order of the
    listing: a table whose describe call raises a [ClientError] gets the
    row of its name, "(access denied)" and two empty fields; a table whose
    describe call answers gets its name, status, item count and size in
    bytes; a denial drops no other table. *)
Theorem list_dynamodb_lists_denied_tables
  (session : Session) (region : string) (w : world) (ddb : Client) :
  make_client session "dynamodb" (Some region) = Ok ddb ->
  pages_complete (list_tables ddb) = true ->
  (forall t, In t (all_table_names (list_tables ddb)) ->
     describe_answers ddb t) ->
  let tables := all_table_names (list_tables ddb) in
  let rows := map (dynamodb_row_spec ddb) tables in
  list_dynamodb session region w
  = (Ok tt,
     emit (called w [CallClient "dynamodb" (Some region)])
          (listing ("DynamoDB Tables in " +:+ region) rows
                   ["TableName"; "Status"; "ItemCount"; "SizeBytes"]))
  /\ length rows = length tables
  /\ (forall t e,
        describe_table ddb t = Raise e -> is_ClientError e = true ->
        dynamodb_row_spec ddb t = [t; "(access denied)"; ""; ""]
        /\ (In t tables -> In [t; "(access denied)"; ""; ""] rows))
  /\ (forall t desc,
        describe_table ddb t = Ok (mk_describe_table_response (Some desc)) ->
        let row := [t; get (TableStatus desc) "";
                    match ItemCount desc with
                    | Some n => str_int n
                    | None => ""
                    end;
                    match TableSizeBytes desc with
                    | Some n => str_int n
                    | None => ""
                    end] in
        dynamodb_row_spec ddb t = row /\ (In t tables -> In row rows)).
Proof.
  intros Hclient Hc Hall tables rows. split; [|split; [|split]].
  - unfold list_dynamodb.
    rewrite (bind_ok _ _ _ _ _ (client_ok _ _ _ _ w Hclient)).
    unfold bind at 1. unfold lift at 1.
    rewrite dynamodb_pages by assumption.
    apply print_listing.
    apply List.Forall_forall. intros r Hr.
    apply in_map_iff in Hr as (t & <- & _).
    unfold dynamodb_row_spec.
    destruct (describe_table ddb t) as [[[desc|]]|e]; reflexivity.
  - unfold rows. now rewrite length_map.
  - intros t e Hd Hce.
    assert (Hrow : dynamodb_row_spec ddb t = [t; "(access denied)"; ""; ""])
      by (unfold dynamodb_row_spec; now rewrite Hd).
    split; [exact Hrow|]. intros Hin. rewrite <- Hrow. now apply in_map.
  - intros t desc Hd row.
    assert (Hrow : dynamodb_row_spec ddb t = row)
      by (unfold dynamodb_row_spec; now rewrite Hd).
    split; [exact Hrow|]. intros Hin. rewrite <- Hrow. now apply in_map.
Qed.

Lemma list_dynamodb_lists_denied_tables_witness :
  list_dynamodb sample_session "eu-west-1" init_world
  = (Ok tt,
     mk_world ["============================";
               "DynamoDB Tables in eu-west-1";
               "============================";
               "TableName | Status          | ItemCount | SizeBytes";
               "----------+-----------------+-----------+----------";
               "users     | ACTIVE          | 5         | 1024     ";
               "audit     | (access denied) |           |          ";
               "orders    | ACTIVE          | 5         | 1024     "]
              [] [CallClient "dynamodb" (Some "eu-west-1")]).
Proof.
  apply (proj1 (list_dynamodb_lists_denied_tables
                  sample_session "eu-west-1" init_world sample_client
                  eq_refl eq_refl
                  ltac:(simpl; intros t [<-|[<-|[<-|[]]]];
                        [left|right|left]; eexists;
                        try split; reflexivity))).
Defined.

(** ** ec2 *)

Lemma ec2_pages ps :
  pages_complete ps = true ->
  for_pages ps
    (fun rows page =>
       Ok (fold_left
             (fun rows reservation =>
                fold_left (fun rows inst => rows ++ [ec2_row inst])
                          (get (Instances reservation) []) rows)
             (get (Reservations page) []) rows))
    []
  = Ok (map ec2_row (all_instances ps)).
Proof.
  intros Hc.
  rewrite (for_pages_collect _
             (fun page =>
                concat (map (fun reservation =>
                               map ec2_row (get (Instances reservation) []))
                            (get (Reservations page) []))) ps [] Hc).
  - simpl. unfold all_instances. rewrite concat_map, map_map.
    do 2 f_equal. apply map_ext. intros page.
    now rewrite concat_map, map_map.
  - intros rows page _. f_equal.
    rewrite <- fold_left_extend.
    apply fold_left_pointwise. intros acc reservation.
    apply fold_left_snoc.
Qed.

(** C7.  When the ec2 client is obtained and the pagination ends without
    raising, [list_ec2] prints one row per instance, and in the row of
    every instance: the name (sixth field) is the value of the first tag
    whose key is exactly "Name", the empty string when there is none; the
    launch time (fifth field) of a datetime with a four-digit year reads
    YYYY-MM-DD HH:MM:SS with the fields of that datetime; and the launch
    time of anything that is not a datetime, the missing value included,
    is its [str]. *)
Theorem list_ec2_name_and_launch_time
  (session : Session) (region : string) (w : world) (ec2 : Client) :
  make_client session "ec2" (Some region) = Ok ec2 ->
  pages_complete (describe_instances ec2) = true ->
  list_ec2 session region w
  = (Ok tt,
     emit (called w [CallClient "ec2" (Some region)])
          (listing ("EC2 Instances in " +:+ region)
                   (map ec2_row (all_instances (describe_instances ec2)))
                   ["InstanceId"; "State"; "Type"; "AZ"; "LaunchTime";
                    "Name"]))
  /\ (forall inst : instance,
        nth 5 (ec2_row inst) ""
        = match List.find is_Name_tag (get (Tags inst) []) with
          | Some t => get (Value t) ""
          | None => ""
          end
        /\ (forall d, LaunchTime inst = PDatetime d ->
              four_digit_datetime d ->
              formatted_timestamp d (nth 4 (ec2_row inst) ""))
        /\ ((forall d, LaunchTime inst <> PDatetime d) ->
              nth 4 (ec2_row inst) "" = str (LaunchTime inst))
        /\ (LaunchTime inst = PNone -> nth 4 (ec2_row inst) "" = "None")).
Proof.
  intros Hclient Hc. split.
  - unfold list_ec2.
    rewrite (bind_ok _ _ _ _ _ (client_ok _ _ _ _ w Hclient)).
    unfold bind at 1. unfold lift at 1.
    rewrite ec2_pages by exact Hc.
    apply print_listing.
    apply List.Forall_forall. intros r Hr.
    apply in_map_iff in Hr as (inst & <- & _). reflexivity.
  - intros inst. simpl nth. split; [|split; [|split]].
    + apply name_tag_spec.
    + intros d Hd Hvalid. rewrite Hd. now apply human_ts_datetime.
    + apply human_ts_fallback.
    + intros Hnone. now rewrite Hnone.
Qed.

Lemma list_ec2_name_and_launch_time_witness :
  list_ec2 sample_session "us-east-1" init_world
  = (Ok tt,
     mk_world
       ["=========================="; "EC2 Instances in us-east-1";
        "==========================";
        "InstanceId | State   | Type     | AZ | LaunchTime          | Name";
        "-----------+---------+----------+----+---------------------+-----";
        "i-1        | running | t2.micro |    | 2021-03-04 05:06:07 | web "]
       [] [CallClient "ec2" (Some "us-east-1")])
  /\ formatted_timestamp (mk_datetime 2021 3 4 5 6 7 0 (Some 0%Z))
       (nth 4 (ec2_row sample_instance) "").
Proof.
  pose proof (list_ec2_name_and_launch_time
                sample_session "us-east-1" init_world sample_client
                eq_refl eq_refl) as [Hrun Hrow].
  split; [exact Hrun|].
  destruct (Hrow sample_instance) as (_ & Hts & _).
  apply (Hts _ eq_refl). unfold four_digit_datetime. simpl. lia.
Defined.

(** ** Trimming *)

Lemma rstrip_head_nonspace c s :
  isspace c = false -> exists r, rstrip (String c s) = String c r.
Proof.
  intros Hc. simpl. destruct (rstrip s); [rewrite Hc|]; eauto.
Qed.

Lemma rstrip_idempotent s : rstrip (rstrip s) = rstrip s.
Proof.
  induction s as [|c s IH]; simpl; [reflexivity|].
  destruct (rstrip s) as [|c' r] eqn:Hr.
  - destruct (isspace c) eqn:Hc; simpl; [reflexivity|now rewrite Hc].
  - change (rstrip (String c (String c' r))
            = String c (String c' r)).
    change (match rstrip (String c' r) with
            | EmptyString =>
                if isspace c then EmptyString else String c EmptyString
            | String a r' => String c (String a r')
            end = String c (String c' r)).
    now rewrite IH.
Qed.

(** [lstrip] leaves a string that is empty or starts with a character
    that is not a space. *)
Lemma lstrip_head s :
  lstrip s = EmptyString
  \/ exists c r, lstrip s = String c r /\ isspace c = false.
Proof.
  induction s as [|c s IH]; simpl; [now left|].
  destruct (isspace c) eqn:Hc; [exact IH|right; eauto].
Qed.

Lemma strip_idempotent s : strip (strip s) = strip s.
Proof.
  unfold strip. destruct (lstrip_head s) as [H|(c & r & H & Hc)]; rewrite H.
  - reflexivity.
  - destruct (rstrip_head_nonspace c r Hc) as [r' Hr'].
    rewrite Hr'. simpl lstrip. rewrite Hc. rewrite <- Hr'.
    apply rstrip_idempotent.
Qed.

(** ** The log of calls only grows *)

Lemma grows_ret {A} (a : A) : grows (ret a).
Proof. intros w. exists []. simpl. now rewrite app_nil_r. Qed.

Lemma grows_raise {A} (e : exn) : grows (@raise A e).
Proof. intros w. exists []. simpl. now rewrite app_nil_r. Qed.

Lemma grows_lift {A} (r : result A) : grows (lift r).
Proof. intros w. exists []. simpl. now rewrite app_nil_r. Qed.

Lemma grows_print s : grows (print s).
Proof. intros w. exists []. simpl. now rewrite app_nil_r. Qed.

Lemma grows_print_stderr s : grows (print_stderr s).
Proof. intros w. exists []. simpl. now rewrite app_nil_r. Qed.

Lemma grows_log_call c : grows (log_call c).
Proof. intros w. now exists [c]. Qed.

Lemma grows_bind {A B} (m : M A) (k : A -> M B) :
  grows m -> (forall a, grows (k a)) -> grows (bind m k).
Proof.
  intros Hm Hk w. unfold bind.
  destruct (Hm w) as [cs Hcs].
  destruct (m w) as [[a|e] w1]; simpl in *.
  - destruct (Hk a w1) as [cs' Hcs']. exists (cs ++ cs').
    now rewrite Hcs', Hcs, <- app_assoc.
  - now exists cs.
Qed.

Lemma grows_try_except {A} (m : M A) (h : exn -> option (M A)) :
  grows m -> (forall e k, h e = Some k -> grows k) ->
  grows (try_except m h).
Proof.
  intros Hm Hh w. unfold try_except.
  destruct (Hm w) as [cs Hcs].
  destruct (m w) as [[a|e] w1]; simpl in *.
  - now exists cs.
  - destruct (h e) as [k|] eqn:Hk; simpl.
    + destruct (Hh e k Hk w1) as [cs' Hcs']. exists (cs ++ cs').
      now rewrite Hcs', Hcs, <- app_assoc.
    + now exists cs.
Qed.

Lemma grows_for_each {A} (l : list A) (body : A -> M unit) :
  (forall a, grows (body a)) -> grows (for_each l body).
Proof.
  intros Hb. induction l as [|a l IH]; simpl.
  - apply grows_ret.
  - apply grows_bind; [apply Hb|intros _; exact IH].
Qed.

Lemma grows_fail {A} msg code : grows (@fail A msg code).
Proof.
  unfold fail. apply grows_bind; [apply grows_print_stderr|].
  intros _. apply grows_raise.
Qed.

Create HintDb grows.
#[local] Hint Resolve grows_ret grows_raise grows_lift grows_print
  grows_print_stderr grows_log_call grows_fail grows_for_each : grows.

Ltac grows_step :=
  first [ apply grows_bind; [|intro]
        | apply grows_for_each; intro
        | solve [auto with grows] ].

Lemma grows_print_header title : grows (print_header title).
Proof. unfold print_header. repeat grows_step. Qed.

Lemma grows_print_table rows headers : grows (print_table rows headers).
Proof.
  unfold print_table. destruct rows; [auto with grows|].
  repeat grows_step.
Qed.

Lemma grows_client session service_name region_name :
  grows (client session service_name region_name).
Proof. unfold client. repeat grows_step. Qed.

#[local] Hint Resolve grows_print_header grows_print_table grows_client
  : grows.

Lemma grows_handler svc h session region :
  subscript SUPPORTED svc = Ok h -> grows (h session region).
Proof.
  unfold SUPPORTED. simpl. intros H.
  repeat match type of H with
         | (if ?c then _ else _) = _ => destruct c
         end;
    inversion H; subst;
    unfold list_ec2, list_s3, list_dynamodb, list_rds, list_lambda;
    repeat grows_step.
Qed.

(** ** Dispatch *)

Lemma contains_supported svc :
  contains SUPPORTED svc = true <-> In svc supported_keys.
Proof.
  unfold contains. rewrite existsb_exists. split.
  - intros (k & Hk & Heq). apply String.eqb_eq in Heq. now subst.
  - intros H. exists svc. split; [exact H|apply String.eqb_refl].
Qed.

Lemma subscript_supported svc :
  In svc supported_keys ->
  exists h, subscript SUPPORTED svc = Ok h /\ In (svc, h) SUPPORTED.
Proof.
  unfold supported_keys.
  intros [<-|[<-|[<-|[<-|[<-|[]]]]]]; eexists; (split; [reflexivity|]);
    simpl; tauto.
Qed.

Lemma subscript_contains {V} (d : list (string * V)) k v :
  subscript d k = Ok v -> contains d k = true.
Proof.
  unfold contains, keys.
  induction d as [|[k' v'] d IH]; simpl; [discriminate|].
  destruct (String.eqb k k'); [reflexivity|exact IH].
Qed.

Lemma main_unsupported sdk args w :
  contains SUPPORTED (strip (lower (args_service args))) = false ->
  main sdk args w
  = (Raise (SystemExit 1),
     emit_err w ("Error: Unsupported service '"
                 +:+ strip (lower (args_service args))
                 +:+ "'. Supported: dynamodb, ec2, lambda, rds, s3")).
Proof.
  intros H. unfold main. rewrite H. reflexivity.
Qed.

Lemma main_supported sdk args h w :
  subscript SUPPORTED (strip (lower (args_service args))) = Ok h ->
  main sdk args w
  = (let! session :=
       get_session sdk (args_profile args) (strip (args_region args)) in
     try_except
       (h session (strip (args_region args)) >> ret 0%Z)
       (main_handlers (strip (lower (args_service args)))
                      (strip (args_region args)))) w.
Proof.
  intros H. unfold main.
  rewrite (subscript_contains _ _ _ H), H. reflexivity.
Qed.

(** ** Session resolution *)

Lemma get_session_spec sdk profile region w :
  let w1 := called w [CallSession (profile_name_of profile) region] in
  get_session sdk profile region w
  = match boto3_Session sdk (profile_name_of profile) region with
    | Ok session => (Ok session, w1)
    | Raise (NoRegionError m) =>
        (Raise (SystemExit 1), emit_err w1 ("Error: " +:+ m))
    | Raise e =>
        if is_Exception e
        then (Raise (SystemExit 1),
              emit_err w1 ("Error: Failed to initialize AWS session: "
                           +:+ str_exn e))
        else (Raise e, w1)
    end.
Proof.
  unfold get_session, try_except, new_session, bind, log_call, lift.
  destruct profile as [[|c p]|]; simpl;
    (match goal with
     | |- context [boto3_Session ?a ?b ?c] =>
         destruct (boto3_Session a b c) as [session|e]
     end; [reflexivity|destruct e; reflexivity]).
Qed.

Lemma main_handlers_exception service region e :
  is_Exception e = true ->
  exists msg, main_handlers service region e = Some (fail msg 1).
Proof.
  destruct e; simpl; intros H; try discriminate; eexists; reflexivity.
Qed.

(** The run of [main] once the session is there, by the way the handler
    ends. *)
Lemma main_after_session sdk args h session w w1 :
  subscript SUPPORTED (strip (lower (args_service args))) = Ok h ->
  get_session sdk (args_profile args) (strip (args_region args)) w
  = (Ok session, w1) ->
  main sdk args w
  = match h session (strip (args_region args)) w1 with
    | (Ok _, w2) => (Ok 0%Z, w2)
    | (Raise e, w2) =>
        match main_handlers (strip (lower (args_service args)))
                            (strip (args_region args)) e with
        | Some k => k w2
        | None => (Raise e, w2)
        end
    end.
Proof.
  intros Hh Hs. rewrite (main_supported _ _ h) by exact Hh.
  unfold bind at 1. rewrite Hs. unfold try_except, bind, ret.
  destruct (h session (strip (args_region args)) w1) as [[[]|e] w2];
    reflexivity.
Qed.

(** ** Main: the claims *)

(** C3.  When the lowercased, trimmed service string is none of ec2, s3,
    dynamodb, rds, lambda, the run exits with code 1 after one line on the
    error stream that names the string and enumerates the five keys, and
    no call into boto3 has been made: no session exists.  When it is one
    of the five, [SUPPORTED] yields the handler stored under that key and
    [main] goes on to resolve the session and run that handler. *)
Theorem dispatch_checks_service_before_session (sdk : SDK) (args : Namespace) :
  let service := strip (lower (args_service args)) in
  let region := strip (args_region args) in
  (~ In service ["ec2"; "s3"; "dynamodb"; "rds"; "lambda"] ->
     program sdk args
     = (Exit 1,
        mk_world []
          ["Error: Unsupported service '" +:+ service
           +:+ "'. Supported: dynamodb, ec2, lambda, rds, s3"]
          []))
  /\ (In service ["ec2"; "s3"; "dynamodb"; "rds"; "lambda"] ->
        exists h,
          subscript SUPPORTED service = Ok h
          /\ In (service, h) SUPPORTED
          /\ forall w,
               main sdk args w
               = (let! session :=
                    get_session sdk (args_profile args) region in
                  try_except (h session region >> ret 0%Z)
                             (main_handlers service region)) w).
Proof.
  intros service region. split.
  - intros Hnot. unfold program.
    rewrite main_unsupported; [reflexivity|].
    destruct (contains SUPPORTED (strip (lower (args_service args))))
      eqn:Hc; [|reflexivity].
    apply contains_supported in Hc. now destruct Hnot.
  - intros Hin. destruct (subscript_supported _ Hin) as (h & Hh & Hpair).
    exists h. split; [exact Hh|]. split; [exact Hpair|].
    intros w. now apply main_supported.
Qed.

Lemma dispatch_checks_service_before_session_witness :
  program sample_sdk (mk_Namespace " Glacier" "us-east-1" None)
  = (Exit 1,
     mk_world []
       ["Error: Unsupported service 'glacier'. Supported: dynamodb, ec2, lambda, rds, s3"]
       [])
  /\ exists h,
       subscript SUPPORTED "lambda" = Ok h
       /\ In ("lambda", h) SUPPORTED
       /\ forall w,
            main sample_sdk (mk_Namespace " LAMBDA " "us-east-1" None) w
            = (let! session := get_session sample_sdk None "us-east-1" in
               try_except (h session "us-east-1" >> ret 0%Z)
                          (main_handlers "lambda" "us-east-1")) w.
Proof.
  split.
  - apply (proj1 (dispatch_checks_service_before_session sample_sdk
                    (mk_Namespace " Glacier" "us-east-1" None))).
    simpl. intros [H|[H|[H|[H|[H|[]]]]]]; discriminate H.
  - apply (proj2 (dispatch_checks_service_before_session sample_sdk
                    (mk_Namespace " LAMBDA " "us-east-1" None))).
    simpl. tauto.
Defined.

(** C4.  For a supported service whose session is resolved: when the
    handler returns, the run exits with code 0; when the handler is
    interrupted from the keyboard, the run exits with code 130 after the
    line "Error: Interrupted by user." on the error stream; when the
    handler raises any [Exception] (credentials, endpoint, unknown
    service, [ClientError], parameter validation, or anything else), the
    run exits with code 1 after one line on the error stream that begins
    with "Error: ".  A session constructor that raises an [Exception] and
    an unsupported service also end the run with code 1 after such a
    line. *)
Theorem exit_code_of_every_run (sdk : SDK) (args : Namespace) :
  let service := strip (lower (args_service args)) in
  let region := strip (args_region args) in
  (forall h session w1 w2,
     subscript SUPPORTED service = Ok h ->
     get_session sdk (args_profile args) region init_world
     = (Ok session, w1) ->
     (h session region w1 = (Ok tt, w2) ->
        program sdk args = (Exit 0, w2))
     /\ (h session region w1 = (Raise KeyboardInterrupt, w2) ->
           program sdk args
           = (Exit 130, emit_err w2 "Error: Interrupted by user."))
     /\ (forall e, h session region w1 = (Raise e, w2) ->
           is_Exception e = true ->
           exists msg,
             program sdk args = (Exit 1, emit_err w2 ("Error: " +:+ msg))))
  /\ (forall e,
        In service supported_keys ->
        boto3_Session sdk (profile_name_of (args_profile args)) region
        = Raise e ->
        is_Exception e = true ->
        exists msg w1,
          program sdk args = (Exit 1, emit_err w1 ("Error: " +:+ msg)))
  /\ (~ In service supported_keys ->
        exists msg,
          program sdk args
          = (Exit 1, emit_err init_world ("Error: " +:+ msg))).
Proof.
  intros service region. split; [|split].
  - intros h session w1 w2 Hh Hs.
    pose proof (main_after_session sdk args h session init_world w1 Hh Hs)
      as Hmain.
    fold region in Hmain. fold service in Hmain.
    split; [|split].
    + intros Hrun. unfold program. rewrite Hmain, Hrun. reflexivity.
    + intros Hrun. unfold program. rewrite Hmain, Hrun. reflexivity.
    + intros e Hrun He.
      destruct (main_handlers_exception service region e He) as [msg Hmsg].
      exists msg. unfold program. rewrite Hmain, Hrun, Hmsg. reflexivity.
  - intros e Hin Hraise He.
    destruct (subscript_supported _ Hin) as (h & Hh & _).
    pose proof (get_session_spec sdk (args_profile args) region init_world)
      as Hs.
    cbv zeta in Hs. rewrite Hraise in Hs.
    assert (Hfail : exists msg,
              get_session sdk (args_profile args) region init_world
              = (Raise (SystemExit 1),
                 emit_err
                   (called init_world
                      [CallSession (profile_name_of (args_profile args))
                                   region])
                   ("Error: " +:+ msg))).
    { destruct e; try discriminate He; rewrite Hs; eexists; reflexivity. }
    destruct Hfail as [msg Hfail]. exists msg. eexists.
    unfold program. rewrite (main_supported _ _ h) by exact Hh.
    unfold bind at 1. fold region. rewrite Hfail. reflexivity.
  - intros Hnot. eexists. unfold program.
    rewrite main_unsupported; [reflexivity|].
    destruct (contains SUPPORTED (strip (lower (args_service args))))
      eqn:Hc; [|reflexivity].
    apply contains_supported in Hc. now destruct Hnot.
Qed.

Lemma exit_code_of_every_run_witness :
  program sample_sdk (mk_Namespace "RDS" "eu-west-1" None)
  = (Exit 0,
     mk_world ["============================="; "RDS DB Instances in eu-west-1";
               "============================="; "(no resources found)"]
              []
              [CallSession None "eu-west-1";
               CallClient "rds" (Some "eu-west-1")])
  /\ program (failing_sdk KeyboardInterrupt)
             (mk_Namespace "s3" "eu-west-1" None)
     = (Exit 130,
        mk_world [] ["Error: Interrupted by user."]
                 [CallSession None "eu-west-1"; CallClient "s3" None])
  /\ exists msg,
       program (failing_sdk (NoCredentialsError "Unable to locate credentials"))
               (mk_Namespace "ec2" "eu-west-1" None)
       = (Exit 1,
          mk_world [] ["Error: " +:+ msg]
                   [CallSession None "eu-west-1";
                    CallClient "ec2" (Some "eu-west-1")]).
Proof.
  split; [|split].
  - pose proof (proj1 (exit_code_of_every_run sample_sdk
                         (mk_Namespace "RDS" "eu-west-1" None))
                  list_rds sample_session
                  (mk_world [] [] [CallSession None "eu-west-1"])
                  (mk_world ["============================="; "RDS DB Instances in eu-west-1";
                             "============================="; "(no resources found)"]
                            []
                            [CallSession None "eu-west-1";
                             CallClient "rds" (Some "eu-west-1")])
                  eq_refl eq_refl) as (Hok & _ & _).
    exact (Hok eq_refl).
  - pose proof (proj1 (exit_code_of_every_run
                         (failing_sdk KeyboardInterrupt)
                         (mk_Namespace "s3" "eu-west-1" None))
                  list_s3 (failing_session KeyboardInterrupt)
                  (mk_world [] [] [CallSession None "eu-west-1"])
                  (mk_world [] []
                            [CallSession None "eu-west-1";
                             CallClient "s3" None])
                  eq_refl eq_refl) as (_ & Hint & _).
    exact (Hint eq_refl).
  - pose proof (proj1 (exit_code_of_every_run
                         (failing_sdk (NoCredentialsError
                                         "Unable to locate credentials"))
                         (mk_Namespace "ec2" "eu-west-1" None))
                  list_ec2
                  (failing_session (NoCredentialsError
                                      "Unable to locate credentials"))
                  (mk_world [] [] [CallSession None "eu-west-1"])
                  (mk_world [] []
                            [CallSession None "eu-west-1";
                             CallClient "ec2" (Some "eu-west-1")])
                  eq_refl eq_refl) as (_ & _ & Hexn).
    exact (Hexn _ eq_refl eq_refl).
Defined.

(** ** Region *)

Lemma get_session_calls sdk profile region w :
  calls (snd (get_session sdk profile region w))
  = calls w ++ [CallSession (profile_name_of profile) region].
Proof.
  rewrite get_session_spec. cbv zeta.
  destruct (boto3_Session sdk (profile_name_of profile) region) as [s|e];
    [reflexivity|].
  destruct e; reflexivity.
Qed.

Lemma bind_calls {A B} (m : M A) (k : A -> M B) w :
  (forall a, grows (k a)) ->
  exists cs, calls (snd (bind m k w)) = calls (snd (m w)) ++ cs.
Proof.
  intros Hk. unfold bind. destruct (m w) as [[a|e] w1]; simpl.
  - apply Hk.
  - exists []. now rewrite app_nil_r.
Qed.

Lemma main_handlers_grow service region e k :
  main_handlers service region e = Some k -> grows k.
Proof.
  destruct e; simpl; intros H; inversion H; apply grows_fail.
Qed.

Lemma program_world sdk args :
  snd (program sdk args) = snd (main sdk args init_world).
Proof.
  unfold program.
  destruct (main sdk args init_world) as [[c|e] w]; [reflexivity|].
  destruct e; reflexivity.
Qed.

(** C8, as the code has it.  The region is a positional argument of the
    command line; for a supported service its trimmed value, empty or not,
    is the [region_name] of the first call into boto3, the session
    constructor.  When that constructor raises [NoRegionError], the run
    exits with code 1 after "Error: " and the SDK's message; when it
    raises any other [Exception], the run exits with code 1 after
    "Error: Failed to initialize AWS session: " and the message. *)
Theorem region_is_trimmed_and_handed_to_the_session
  (sdk : SDK) (args : Namespace) :
  let region := strip (args_region args) in
  let profile_name := profile_name_of (args_profile args) in
  In (strip (lower (args_service args))) supported_keys ->
  (exists rest,
     calls (snd (program sdk args)) = CallSession profile_name region :: rest)
  /\ (forall m,
        boto3_Session sdk profile_name region = Raise (NoRegionError m) ->
        program sdk args
        = (Exit 1,
           mk_world [] ["Error: " +:+ m] [CallSession profile_name region]))
  /\ (forall e,
        boto3_Session sdk profile_name region = Raise e ->
        is_Exception e = true ->
        (forall m, e <> NoRegionError m) ->
        program sdk args
        = (Exit 1,
           mk_world []
             ["Error: Failed to initialize AWS session: " +:+ str_exn e]
             [CallSession profile_name region])).
Proof.
  intros region profile_name Hin.
  destruct (subscript_supported _ Hin) as (h & Hh & _).
  pose proof (get_session_spec sdk (args_profile args) region init_world)
    as Hs.
  cbv zeta in Hs. fold profile_name in Hs.
  split; [|split].
  - rewrite program_world, (main_supported _ _ h) by exact Hh.
    destruct (bind_calls
                (get_session sdk (args_profile args)
                             (strip (args_region args)))
                (fun session =>
                   try_except
                     (h session (strip (args_region args)) >> ret 0%Z)
                     (main_handlers (strip (lower (args_service args)))
                                    (strip (args_region args))))
                init_world) as [cs Hcs].
    + intros session. apply grows_try_except.
      * apply grows_bind;
          [exact (grows_handler _ h session _ Hh)|].
        intros _. apply grows_ret.
      * apply main_handlers_grow.
    + rewrite Hcs, get_session_calls. now exists cs.
  - intros m Hraise. rewrite Hraise in Hs.
    unfold program. rewrite (main_supported _ _ h) by exact Hh.
    unfold bind at 1. fold region. rewrite Hs. reflexivity.
  - intros e Hraise He Hnot. rewrite Hraise in Hs.
    unfold program. rewrite (main_supported _ _ h) by exact Hh.
    unfold bind at 1. fold region. rewrite Hs.
    destruct e; try discriminate He; try reflexivity.
    now destruct (Hnot msg).
Qed.

Lemma region_is_trimmed_and_handed_to_the_session_witness :
  program no_region_sdk (mk_Namespace "rds" "  " None)
  = (Exit 1,
     mk_world [] ["Error: You must specify a region."]
              [CallSession None ""]).
Proof.
  apply (proj1 (proj2 (region_is_trimmed_and_handed_to_the_session
                         no_region_sdk (mk_Namespace "rds" "  " None)
                         ltac:(simpl; tauto)))
           "You must specify a region." eq_refl).
Defined.

(** C8, as stated, fails: a region argument of spaces only is not
    rejected.  The run goes through with exit code 0 and the empty region
    is what the session constructor and the client receive. *)
Lemma blank_region_reaches_the_provider :
  program sample_sdk (mk_Namespace "rds" "   " None)
  = (Exit 0,
     mk_world ["===================="; "RDS DB Instances in ";
               "===================="; "(no resources found)"]
              []
              [CallSession None ""; CallClient "rds" (Some "")]).
Proof. reflexivity. Qed.

(** ** Normalisation of the arguments *)

(** C9.  Whatever the SDK answers and whatever the profile, the run with
    service "EC2 " and a region is the run with service "ec2" and that
    region trimmed: same exit code, same two output streams, same calls
    into boto3 with the same arguments; and so is [main] from any world. *)
Theorem mixed_case_service_runs_as_ec2
  (sdk : SDK) (region : string) (profile : option string) :
  program sdk (mk_Namespace "EC2 " region profile)
  = program sdk (mk_Namespace "ec2" (strip region) profile)
  /\ (forall w,
        main sdk (mk_Namespace "EC2 " region profile) w
        = main sdk (mk_Namespace "ec2" (strip region) profile) w)
  /\ subscript SUPPORTED (strip (lower "EC2 ")) = Ok list_ec2.
Proof.
  assert (Hmain : forall w,
            main sdk (mk_Namespace "EC2 " region profile) w
            = main sdk (mk_Namespace "ec2" (strip region) profile) w).
  { intros w. unfold main. simpl args_service. simpl args_region.
    simpl args_profile. rewrite strip_idempotent. reflexivity. }
  split; [|split].
  - unfold program. now rewrite Hmain.
  - exact Hmain.
  - reflexivity.
Qed.

(** * Further properties *)

(** ** Alignment of the table *)

Lemma len_append s t : len (s +:+ t) = len s + len t.
Proof.
  unfold len. induction s as [|c s IH]; simpl; [reflexivity|].
  now rewrite IH.
Qed.

Lemma ljust_length s w : len (ljust s w) = Nat.max (len s) w.
Proof.
  unfold ljust. rewrite len_append, str_mul_char_length. lia.
Qed.

Lemma join_length sep cells :
  len (join sep cells)
  = list_sum (map len cells) + len sep * (length cells - 1).
Proof.
  induction cells as [|c cells IH]; [simpl; lia|].
  destruct cells as [|c' cells].
  - simpl. lia.
  - change (join sep (c :: c' :: cells))
      with (c +:+ sep +:+ join sep (c' :: cells)).
    rewrite !len_append, IH. simpl. lia.
Qed.

Lemma col_width_header rows headers j :
  len (nth j headers "") <= col_width_spec rows headers j.
Proof. unfold col_width_spec. simpl. lia. Qed.

Lemma col_width_cell rows headers j r :
  In r rows -> len (nth j r "") <= col_width_spec rows headers j.
Proof.
  intros Hin. unfold col_width_spec.
  pose proof (proj1 (list_max_le
                (len (nth j headers "")
                 :: map (fun r => len (nth j r "")) rows) _)
                (Nat.le_refl _)) as Hall.
  rewrite List.Forall_forall in Hall. apply Hall. right.
  apply in_map_iff. now exists r.
Qed.

(** Cells no longer than their columns are padded to exactly the widths. *)
Lemma justify_lengths ws : forall cells,
  length cells = length ws ->
  (forall j, j < length ws -> len (nth j cells "") <= nth j ws 0) ->
  map len (justify cells ws) = ws.
Proof.
  unfold justify.
  induction ws as [|w ws IH]; intros [|c cells] Hlen Hle;
    simpl in *; try lia; try reflexivity.
  f_equal.
  - rewrite ljust_length. specialize (Hle 0 ltac:(lia)). simpl in Hle. lia.
  - apply IH; [lia|]. intros j Hj. apply (Hle (S j)). lia.
Qed.

Lemma nth_widths_spec rows headers j :
  j < length headers ->
  nth j (widths_spec rows headers) 0 = col_width_spec rows headers j.
Proof.
  intros Hj. unfold widths_spec.
  rewrite (nth_indep _ 0 (col_width_spec rows headers 0))
    by now rewrite length_map, length_seq.
  now rewrite (map_nth (col_width_spec rows headers)), seq_nth.
Qed.

Lemma dash_runs_lengths ws : map len (map (str_mul "-") ws) = ws.
Proof.
  induction ws as [|w ws IH]; simpl; [reflexivity|].
  now rewrite str_mul_char_length, IH.
Qed.

(** X1.  The table is aligned: for non-empty rectangular rows, in the
    header line and in every row line each cell is padded to exactly the
    width of its column, no cell is cut, and all the lines printed, the
    separator included, have the same length: the sum of the widths plus
    three characters between neighbouring columns. *)
Theorem print_table_lines_are_aligned
  (rows : list (list string)) (headers : list string) (w : world) :
  rows <> [] ->
  Forall (fun r => length r = length headers) rows ->
  let ws := widths_spec rows headers in
  print_table rows headers w = (Ok tt, emit w (table_spec rows headers))
  /\ length (table_spec rows headers) = 2 + length rows
  /\ map len (justify headers ws) = ws
  /\ Forall (fun r => map len (justify r ws) = ws) rows
  /\ Forall (fun line =>
               len line = list_sum ws + 3 * (length headers - 1))
            (table_spec rows headers).
Proof.
  intros Hne Hall ws.
  assert (Hws : length ws = length headers) by apply widths_spec_length.
  assert (Hh : map len (justify headers ws) = ws).
  { apply justify_lengths; [now rewrite Hws|].
    intros j Hj. unfold ws. rewrite nth_widths_spec by lia.
    apply col_width_header. }
  assert (Hr : Forall (fun r => map len (justify r ws) = ws) rows).
  { apply List.Forall_forall. intros r Hin.
    rewrite List.Forall_forall in Hall.
    apply justify_lengths; [rewrite Hws; now apply Hall|].
    intros j Hj. unfold ws. rewrite nth_widths_spec by lia.
    now apply col_width_cell. }
  split; [now apply print_table_fits|].
  split; [unfold table_spec; simpl; now rewrite length_map|].
  split; [exact Hh|]. split; [exact Hr|].
  assert (Hcells : forall cells, map len cells = ws ->
            len (join " | " cells)
            = list_sum ws + 3 * (length headers - 1)).
  { intros cells Hc. rewrite join_length, Hc.
    rewrite <- Hws, <- Hc, length_map. reflexivity. }
  unfold table_spec. fold ws.
  constructor; [now apply Hcells|].
  constructor.
  - rewrite join_length, dash_runs_lengths, length_map, Hws. reflexivity.
  - apply Forall_map. eapply Forall_impl; [exact Hr|].
    simpl. intros r Hrr. now apply Hcells.
Qed.

Lemma print_table_lines_are_aligned_witness :
  Forall (fun line => len line = 16)
    (table_spec [["i-1"; "running"]; ["i-0042"; "stopped"]] ["Id"; "State"]).
Proof.
  apply (proj2 (proj2 (proj2 (proj2
           (print_table_lines_are_aligned
              [["i-1"; "running"]; ["i-0042"; "stopped"]] ["Id"; "State"]
              init_world ltac:(discriminate) ltac:(repeat constructor)))))).
Defined.

(** ** Handlers: all of the listing or none of it *)

Lemma for_pages_pure {A B} (body : list B -> A -> result (list B))
  (g : A -> list B) (ps : pages A) : forall acc,
  (forall rows p, body rows p = Ok (rows ++ g p)) ->
  for_pages ps body acc
  = match page_error ps with
    | None => Ok (acc ++ concat (map g (page_list ps)))
    | Some e => Raise e
    end.
Proof.
  induction ps as [|p rest IH|e]; intros acc Hbody; simpl.
  - now rewrite app_nil_r.
  - rewrite Hbody. simpl. rewrite IH by exact Hbody.
    destruct (page_error rest); [reflexivity|now rewrite <- app_assoc].
  - reflexivity.
Qed.

(** The frame every handler has: obtain the client, collect the rows,
    then print the title and the table. *)
Lemma handler_frame session service_name region_name
  (collect : Client -> result (list (list string))) title headers w :
  (forall c rows, collect c = Ok rows ->
     Forall (fun r => length r = length headers) rows) ->
  (let! c := client session service_name region_name in
   let! rows := lift (collect c) in
   print_header title >> print_table rows headers) w
  = match make_client session service_name region_name with
    | Raise e => (Raise e, called w [CallClient service_name region_name])
    | Ok c =>
        match collect c with
        | Raise e =>
            (Raise e, called w [CallClient service_name region_name])
        | Ok rows =>
            (Ok tt,
             emit (called w [CallClient service_name region_name])
                  (listing title rows headers))
        end
    end.
Proof.
  intros Hrect.
  destruct (make_client session service_name region_name) as [c|e] eqn:Hc.
  - rewrite (bind_ok _ _ _ _ _ (client_ok _ _ _ _ w Hc)).
    unfold bind at 1. unfold lift at 1.
    destruct (collect c) as [rows|e] eqn:Hrows; [|reflexivity].
    apply print_listing. now apply (Hrect c).
  - unfold bind at 1. unfold client, bind, log_call, lift. simpl.
    now rewrite Hc.
Qed.

Lemma ec2_collect ps :
  for_pages ps
    (fun rows page =>
       Ok (fold_left
             (fun rows reservation =>
                fold_left (fun rows inst => rows ++ [ec2_row inst])
                          (get (Instances reservation) []) rows)
             (get (Reservations page) []) rows))
    []
  = match page_error ps with
    | None => Ok (map ec2_row (all_instances ps))
    | Some e => Raise e
    end.
Proof.
  rewrite (for_pages_pure _
             (fun page =>
                concat (map (fun reservation =>
                               map ec2_row (get (Instances reservation) []))
                            (get (Reservations page) []))) ps []).
  - destruct (page_error ps); [reflexivity|].
    simpl. unfold all_instances. rewrite concat_map, map_map.
    do 2 f_equal. apply map_ext. intros page.
    now rewrite concat_map, map_map.
  - intros rows page. f_equal.
    rewrite <- fold_left_extend.
    apply fold_left_pointwise. intros acc reservation.
    apply fold_left_snoc.
Qed.

Lemma rds_collect ps :
  for_pages ps
    (fun rows page =>
       Ok (fold_left (fun rows db => rows ++ [rds_row db])
                     (get (DBInstances page) []) rows))
    []
  = match page_error ps with
    | None => Ok (map rds_row (all_db_instances ps))
    | Some e => Raise e
    end.
Proof.
  rewrite (for_pages_pure _
             (fun page => map rds_row (get (DBInstances page) [])) ps []).
  - destruct (page_error ps); [reflexivity|].
    simpl. unfold all_db_instances. now rewrite concat_map, map_map.
  - intros rows page. f_equal. apply fold_left_snoc.
Qed.

Lemma lambda_collect ps :
  for_pages ps
    (fun rows page =>
       Ok (fold_left (fun rows fn => rows ++ [lambda_row fn])
                     (get (Functions page) []) rows))
    []
  = match page_error ps with
    | None => Ok (map lambda_row (all_functions ps))
    | Some e => Raise e
    end.
Proof.
  rewrite (for_pages_pure _
             (fun page => map lambda_row (get (Functions page) [])) ps []).
  - destruct (page_error ps); [reflexivity|].
    simpl. unfold all_functions. now rewrite concat_map, map_map.
  - intros rows page. f_equal. apply fold_left_snoc.
Qed.

(** X2.  [list_ec2] either raises or prints the whole listing: when the
    client cannot be made, or the paginator raises on any page, the
    handler raises that same exception and has printed nothing, not even
    the title, whatever pages came before; otherwise it returns after
    printing the title and one row per instance. *)
Theorem list_ec2_all_or_nothing
  (session : Session) (region : string) (w : world) :
  let w1 := called w [CallClient "ec2" (Some region)] in
  list_ec2 session region w
  = match make_client session "ec2" (Some region) with
    | Raise e => (Raise e, w1)
    | Ok ec2 =>
        match page_error (describe_instances ec2) with
        | Some e => (Raise e, w1)
        | None =>
            (Ok tt,
             emit w1
               (listing ("EC2 Instances in " +:+ region)
                  (map ec2_row (all_instances (describe_instances ec2)))
                  ["InstanceId"; "State"; "Type"; "AZ"; "LaunchTime";
                   "Name"]))
        end
    end.
Proof.
  intros w1. unfold list_ec2.
  rewrite (handler_frame session "ec2" (Some region)
             (fun ec2 =>
                for_pages (describe_instances ec2)
                  (fun rows page =>
                     Ok (fold_left
                           (fun rows reservation =>
                              fold_left
                                (fun rows inst => rows ++ [ec2_row inst])
                                (get (Instances reservation) []) rows)
                           (get (Reservations page) []) rows))
                  [])).
  - destruct (make_client session "ec2" (Some region)) as [ec2|e];
      [|reflexivity].
    rewrite ec2_collect.
    destruct (page_error (describe_instances ec2)); reflexivity.
  - intros c rows. rewrite ec2_collect.
    destruct (page_error (describe_instances c)); [discriminate|].
    intros H. inversion H; subst.
    apply List.Forall_forall. intros r Hr.
    apply in_map_iff in Hr as (a & <- & _). reflexivity.
Qed.

(** X3.  [list_rds] either raises or prints the whole listing: a failure
    to make the client or a paginator that raises on any page makes the
    handler raise that exception with nothing printed; otherwise it
    prints one row per DB instance.  In a row the endpoint field is empty
    when the instance has no endpoint, or an endpoint without address,
    and the creation time goes through [human_ts]. *)
Theorem list_rds_all_or_nothing
  (session : Session) (region : string) (w : world) :
  let w1 := called w [CallClient "rds" (Some region)] in
  list_rds session region w
  = match make_client session "rds" (Some region) with
    | Raise e => (Raise e, w1)
    | Ok rds =>
        match page_error (describe_db_instances rds) with
        | Some e => (Raise e, w1)
        | None =>
            (Ok tt,
             emit w1
               (listing ("RDS DB Instances in " +:+ region)
                  (map rds_row
                       (all_db_instances (describe_db_instances rds)))
                  ["Identifier"; "Engine"; "Class"; "Status"; "Endpoint";
                   "Created"]))
        end
    end
  /\ (forall db,
        nth 4 (rds_row db) "x"
        = match Endpoint db with
          | Some (mk_endpoint (Some address)) => address
          | _ => ""
          end)
  /\ (forall db, nth 5 (rds_row db) "" = human_ts (InstanceCreateTime db)).
Proof.
  intros w1. split; [|split].
  - unfold list_rds.
    rewrite (handler_frame session "rds" (Some region)
               (fun rds =>
                  for_pages (describe_db_instances rds)
                    (fun rows page =>
                       Ok (fold_left (fun rows db => rows ++ [rds_row db])
                                     (get (DBInstances page) []) rows))
                    [])).
    + destruct (make_client session "rds" (Some region)) as [rds|e];
        [|reflexivity].
      rewrite rds_collect.
      destruct (page_error (describe_db_instances rds)); reflexivity.
    + intros c rows. rewrite rds_collect.
      destruct (page_error (describe_db_instances c)); [discriminate|].
      intros H. inversion H; subst.
      apply List.Forall_forall. intros r Hr.
      apply in_map_iff in Hr as (a & <- & _). reflexivity.
  - intros db. unfold rds_row. simpl.
    destruct (Endpoint db) as [[[a|]]|]; reflexivity.
  - reflexivity.
Qed.

(** X4.  [list_lambda] either raises or prints the whole listing: a
    failure to make the client or a paginator that raises on any page
    makes the handler raise that exception with nothing printed;
    otherwise it prints one row per function, whose last field is the
    [LastModified] string as it came (empty when absent), not
    reformatted as a timestamp. *)
Theorem list_lambda_all_or_nothing
  (session : Session) (region : string) (w : world) :
  let w1 := called w [CallClient "lambda" (Some region)] in
  list_lambda session region w
  = match make_client session "lambda" (Some region) with
    | Raise e => (Raise e, w1)
    | Ok lam =>
        match page_error (list_functions lam) with
        | Some e => (Raise e, w1)
        | None =>
            (Ok tt,
             emit w1
               (listing ("Lambda Functions in " +:+ region)
                  (map lambda_row (all_functions (list_functions lam)))
                  ["FunctionName"; "Runtime"; "Version"; "LastModified"]))
        end
    end
  /\ (forall fn,
        nth 3 (lambda_row fn) "x"
        = match LastModified fn with
          | Some s => s
          | None => ""
          end).
Proof.
  intros w1. split.
  - unfold list_lambda.
    rewrite (handler_frame session "lambda" (Some region)
               (fun lam =>
                  for_pages (list_functions lam)
                    (fun rows page =>
                       Ok (fold_left
                             (fun rows fn => rows ++ [lambda_row fn])
                             (get (Functions page) []) rows))
                    [])).
    + destruct (make_client session "lambda" (Some region)) as [lam|e];
        [|reflexivity].
      rewrite lambda_collect.
      destruct (page_error (list_functions lam)); reflexivity.
    + intros c rows. rewrite lambda_collect.
      destruct (page_error (list_functions c)); [discriminate|].
      intros H. inversion H; subst.
      apply List.Forall_forall. intros r Hr.
      apply in_map_iff in Hr as (a & <- & _). reflexivity.
  - intros fn. unfold lambda_row. simpl.
    now destruct (LastModified fn).
Qed.

(** ** s3 and dynamodb: what ends the loop *)

Lemma rfoldl_app {A B} (f : A -> B -> result A) l1 l2 : forall a,
  rfoldl f a (l1 ++ l2) = (let? a' := rfoldl f a l1 in rfoldl f a' l2).
Proof.
  induction l1 as [|b l1 IH]; intros a; simpl; [reflexivity|].
  destruct (f a b) as [a'|e]; simpl; [apply IH|reflexivity].
Qed.

Lemma rfoldl_invariant {A B} (P : A -> Prop) (f : A -> B -> result A) l :
  (forall a b a', P a -> f a b = Ok a' -> P a') ->
  forall a a', P a -> rfoldl f a l = Ok a' -> P a'.
Proof.
  intros Hf. induction l as [|b l IH]; intros a a' Ha H; simpl in H.
  - now inversion H; subst.
  - destruct (f a b) as [a1|e] eqn:Hfa; simpl in H; [|discriminate].
    apply (IH a1 a'); [now apply (Hf a b)|exact H].
Qed.

Lemma for_pages_invariant {A R} (P : R -> Prop)
  (body : R -> A -> result R) ps :
  (forall r p r', P r -> body r p = Ok r' -> P r') ->
  forall r r', P r -> for_pages ps body r = Ok r' -> P r'.
Proof.
  intros Hb. induction ps as [|p rest IH|e]; intros r r' Hr H; simpl in H.
  - now inversion H; subst.
  - destruct (body r p) as [r1|e] eqn:Hbody; simpl in H; [|discriminate].
    apply (IH r1 r'); [now apply (Hb r p)|exact H].
  - discriminate.
Qed.

Lemma for_pages_prepend {A R} (body : R -> A -> result R) done ps :
  forall r,
  for_pages (prepend_pages done ps) body r
  = (let? r' := rfoldl body r done in for_pages ps body r').
Proof.
  induction done as [|p done IH]; intros r; simpl; [reflexivity|].
  destruct (body r p) as [r'|e]; simpl; [apply IH|reflexivity].
Qed.

Lemma s3_step_rectangular s3 region rows b rows' :
  Forall (fun r => length r = 3) rows ->
  s3_step s3 region rows b = Ok rows' ->
  Forall (fun r => length r = 3) rows'.
Proof.
  intros Hrows. unfold s3_step.
  destruct (get_bucket_location s3 (Bucket_Name b)) as [resp|e].
  - destruct (String.eqb _ region); intros H; inversion H; subst;
      [|exact Hrows].
    apply Forall_app. split; [exact Hrows|now repeat constructor].
  - destruct (is_ClientError e); intros H; inversion H; now subst.
Qed.

Lemma dynamodb_step_rectangular ddb rows t rows' :
  Forall (fun r => length r = 4) rows ->
  dynamodb_step ddb rows t = Ok rows' ->
  Forall (fun r => length r = 4) rows'.
Proof.
  intros Hrows. unfold dynamodb_step, dynamodb_describe.
  destruct (describe_table ddb t) as [[[desc|]]|e]; simpl.
  - intros H; inversion H; subst.
    apply Forall_app. split; [exact Hrows|now repeat constructor].
  - discriminate.
  - destruct (is_ClientError e); intros H; inversion H; subst.
    apply Forall_app. split; [exact Hrows|now repeat constructor].
Qed.

(** [list_s3] in the frame of the other handlers. *)
Lemma list_s3_frame session region w :
  list_s3 session region w
  = match make_client session "s3" None with
    | Raise e => (Raise e, called w [CallClient "s3" None])
    | Ok s3 =>
        match (let? resp := list_buckets s3 in
               rfoldl (s3_step s3 region) [] (get (Buckets resp) [])) with
        | Raise e => (Raise e, called w [CallClient "s3" None])
        | Ok rows =>
            (Ok tt,
             emit (called w [CallClient "s3" None])
                  (listing ("S3 Buckets in " +:+ region) rows
                           ["BucketName"; "Region"; "CreationDate"]))
        end
    end.
Proof.
  rewrite <- (handler_frame session "s3" None
                (fun s3 =>
                   let? resp := list_buckets s3 in
                   rfoldl (s3_step s3 region) [] (get (Buckets resp) []))).
  - unfold list_s3, bind, lift.
    destruct (client session "s3" None w) as [[s3|e] w1]; [|reflexivity].
    destruct (list_buckets s3) as [resp|e]; reflexivity.
  - intros c rows. destruct (list_buckets c) as [resp|e]; simpl;
      [|discriminate].
    apply (rfoldl_invariant (Forall (fun r => length r = 3))).
    + intros a b a'. apply s3_step_rectangular.
    + constructor.
Qed.

Lemma list_dynamodb_frame session region w :
  list_dynamodb session region w
  = match make_client session "dynamodb" (Some region) with
    | Raise e => (Raise e, called w [CallClient "dynamodb" (Some region)])
    | Ok ddb =>
        match for_pages (list_tables ddb)
                (fun rows page =>
                   rfoldl (dynamodb_step ddb) rows
                          (get (TableNames page) []))
                [] with
        | Raise e =>
            (Raise e, called w [CallClient "dynamodb" (Some region)])
        | Ok rows =>
            (Ok tt,
             emit (called w [CallClient "dynamodb" (Some region)])
                  (listing ("DynamoDB Tables in " +:+ region) rows
                           ["TableName"; "Status"; "ItemCount";
                            "SizeBytes"]))
        end
    end.
Proof.
  unfold list_dynamodb.
  apply (handler_frame session "dynamodb" (Some region)
           (fun ddb =>
              for_pages (list_tables ddb)
                (fun rows page =>
                   rfoldl (dynamodb_step ddb) rows
                          (get (TableNames page) []))
                [])).
  intros c rows.
  apply (for_pages_invariant (Forall (fun r => length r = 4))).
  - intros r p r'.
    apply (rfoldl_invariant (Forall (fun r => length r = 4))).
    intros a b a'. apply dynamodb_step_rectangular.
  - constructor.
Qed.

(** X5.  In [list_s3] only a [ClientError] on a bucket's location is
    forgiven.  When [list_buckets] raises, or when the location query of
    some bucket raises an exception that is not a [ClientError] while the
    queries of the buckets before it answered or raised [ClientError],
    the handler raises that exception and prints nothing: the buckets
    already matched are not shown and the buckets after it are not
    queried into the result. *)
Theorem list_s3_stops_at_other_errors
  (session : Session) (region : string) (w : world) (s3 : Client) :
  make_client session "s3" None = Ok s3 ->
  (forall e, list_buckets s3 = Raise e ->
     list_s3 session region w
     = (Raise e, called w [CallClient "s3" None]))
  /\ (forall resp pre b post e,
        list_buckets s3 = Ok resp ->
        get (Buckets resp) [] = pre ++ b :: post ->
        (forall b' e', In b' pre ->
           get_bucket_location s3 (Bucket_Name b') = Raise e' ->
           is_ClientError e' = true) ->
        get_bucket_location s3 (Bucket_Name b) = Raise e ->
        is_ClientError e = false ->
        list_s3 session region w
        = (Raise e, called w [CallClient "s3" None])).
Proof.
  intros Hclient. split.
  - intros e Hlist. rewrite list_s3_frame, Hclient, Hlist. reflexivity.
  - intros resp pre b post e Hlist Hsplit Hpre Hloc Hce.
    rewrite list_s3_frame, Hclient, Hlist. simpl rbind.
    rewrite Hsplit, rfoldl_app, s3_loop by exact Hpre. simpl.
    unfold s3_step at 1. rewrite Hloc, Hce. reflexivity.
Qed.

Lemma list_s3_stops_at_other_errors_witness :
  list_s3 flaky_session "us-east-1" init_world
  = (Raise timeout, mk_world [] [] [CallClient "s3" None]).
Proof.
  apply (proj2 (list_s3_stops_at_other_errors
                  flaky_session "us-east-1" init_world flaky_client eq_refl)
           (mk_list_buckets_response
              (Some [mk_bucket "logs" sample_time;
                     mk_bucket "slow" PNone;
                     mk_bucket "assets" PNone]))
           [mk_bucket "logs" sample_time] (mk_bucket "slow" PNone)
           [mk_bucket "assets" PNone] timeout eq_refl eq_refl).
  - simpl. intros b' e' [<-|[]] H. vm_compute in H. discriminate H.
  - reflexivity.
  - reflexivity.
Defined.

(** X6.  In [list_dynamodb] only a [ClientError] on a table is turned
    into an "(access denied)" row.  A describe answer without a [Table]
    entry raises [KeyError], and that or any other exception that is not
    a [ClientError], on a table whose predecessors (in this and in the
    earlier pages) were described or denied, makes the handler raise it
    and print nothing, whatever pages follow. *)
Theorem list_dynamodb_stops_at_other_errors
  (session : Session) (region : string) (w : world) (ddb : Client)
  (done : list tables_page) (page : tables_page) (rest : pages tables_page)
  (pre post : list string) (t : string) (e : exn) :
  make_client session "dynamodb" (Some region) = Ok ddb ->
  list_tables ddb = prepend_pages done (Page page rest) ->
  get (TableNames page) [] = pre ++ t :: post ->
  (forall t',
     In t' (concat (map (fun p => get (TableNames p) []) done) ++ pre) ->
     describe_answers ddb t') ->
  (describe_table ddb t = Raise e /\ is_ClientError e = false)
  \/ (describe_table ddb t = Ok (mk_describe_table_response None)
      /\ e = KeyError "'Table'") ->
  list_dynamodb session region w
  = (Raise e, called w [CallClient "dynamodb" (Some region)]).
Proof.
  intros Hclient Hpages Hsplit Hbefore Ht.
  assert (Hstep : forall rows, dynamodb_step ddb rows t = Raise e).
  { intros rows. unfold dynamodb_step, dynamodb_describe.
    destruct Ht as [[Hd Hce]|[Hd ->]]; rewrite Hd; simpl;
      [now rewrite Hce|reflexivity]. }
  assert (Hdone : forall l rows,
            (forall t', In t'
               (concat (map (fun p => get (TableNames p) []) l)) ->
               describe_answers ddb t') ->
            exists rows',
              rfoldl (fun rows page =>
                        rfoldl (dynamodb_step ddb) rows
                               (get (TableNames page) []))
                     rows l = Ok rows').
  { induction l as [|p l IH]; intros rows Hl; simpl; [eauto|].
    rewrite dynamodb_loop.
    - simpl. apply IH. intros t' Ht'. apply Hl. simpl.
      apply in_or_app. now right.
    - intros t' Ht'. apply Hl. simpl. apply in_or_app. now left. }
  rewrite list_dynamodb_frame, Hclient, Hpages, for_pages_prepend.
  destruct (Hdone done []) as [rows' Hrows'].
  { intros t' Ht'. apply Hbefore. apply in_or_app. now left. }
  rewrite Hrows'. simpl. rewrite Hsplit, rfoldl_app, dynamodb_loop.
  - simpl. rewrite Hstep. reflexivity.
  - intros t' Ht'. apply Hbefore. apply in_or_app. now right.
Qed.

Lemma list_dynamodb_stops_at_other_errors_witness :
  list_dynamodb flaky_session "us-east-1" init_world
  = (Raise (KeyError "'Table'"),
     mk_world [] [] [CallClient "dynamodb" (Some "us-east-1")]).
Proof.
  apply (list_dynamodb_stops_at_other_errors
           flaky_session "us-east-1" init_world flaky_client
           [mk_tables_page (Some ["users"])]
           (mk_tables_page (Some ["audit"; "orders"])) NoMorePages
           [] ["orders"] "audit" (KeyError "'Table'")
           eq_refl eq_refl eq_refl).
  - simpl. intros t' [<-|[]]. left. eexists. reflexivity.
  - right. split; reflexivity.
Defined.

(** ** The run as a whole *)

Lemma handler_frame_cases session service_name region_name
  (collect : Client -> result (list (list string))) title headers w :
  (forall c rows, collect c = Ok rows ->
     Forall (fun r => length r = length headers) rows) ->
  let m :=
    (let! c := client session service_name region_name in
     let! rows := lift (collect c) in
     print_header title >> print_table rows headers) in
  let w1 := called w [CallClient service_name region_name] in
  (exists e, m w = (Raise e, w1))
  \/ (exists rows, m w = (Ok tt, emit w1 (listing title rows headers))).
Proof.
  intros Hrect m w1. unfold m. rewrite handler_frame by exact Hrect.
  destruct (make_client session service_name region_name) as [c|e];
    [|left; eauto].
  destruct (collect c) as [rows|e]; [right|left]; eauto.
Qed.

(** Every handler either raises with nothing printed or returns with its
    listing printed; it makes one client and leaves the error stream
    alone. *)
Lemma handler_all_or_nothing svc h session region w :
  subscript SUPPORTED svc = Ok h ->
  let w1 := called w [CallClient svc (client_region svc region)] in
  (exists e, h session region w = (Raise e, w1))
  \/ (exists title rows headers,
        h session region w = (Ok tt, emit w1 (listing title rows headers))).
Proof.
  unfold SUPPORTED. simpl. intros H.
  repeat match type of H with
         | (if String.eqb svc ?k then _ else _) = _ =>
             destruct (String.eqb_spec svc k)
         end; inversion H; subst; simpl.
  - destruct (handler_frame_cases session "ec2" (Some region)
                (fun ec2 =>
                   for_pages (describe_instances ec2)
                     (fun rows page =>
                        Ok (fold_left
                              (fun rows reservation =>
                                 fold_left
                                   (fun rows inst => rows ++ [ec2_row inst])
                                   (get (Instances reservation) []) rows)
                              (get (Reservations page) []) rows))
                     [])
                ("EC2 Instances in " +:+ region)
                ["InstanceId"; "State"; "Type"; "AZ"; "LaunchTime"; "Name"]
                w) as [He|[rows Hr]]; [|left; exact He|right; eauto].
    intros c rows. rewrite ec2_collect.
    destruct (page_error (describe_instances c)); [discriminate|].
    intros Hrows. inversion Hrows; subst.
    apply List.Forall_forall. intros r Hin.
    apply in_map_iff in Hin as (a & <- & _). reflexivity.
  - rewrite list_s3_frame.
    destruct (make_client session "s3" None) as [s3|e]; [|left; eauto].
    match goal with
    | |- context [match ?r with Ok _ => _ | Raise _ => _ end] =>
        destruct r as [rows|e]
    end; [right|left]; eauto.
  - rewrite list_dynamodb_frame.
    destruct (make_client session "dynamodb" (Some region)) as [ddb|e];
      [|left; eauto].
    match goal with
    | |- context [match ?r with Ok _ => _ | Raise _ => _ end] =>
        destruct r as [rows|e]
    end; [right|left]; eauto.
  - destruct (handler_frame_cases session "rds" (Some region)
                (fun rds =>
                   for_pages (describe_db_instances rds)
                     (fun rows page =>
                        Ok (fold_left (fun rows db => rows ++ [rds_row db])
                                      (get (DBInstances page) []) rows))
                     [])
                ("RDS DB Instances in " +:+ region)
                ["Identifier"; "Engine"; "Class"; "Status"; "Endpoint";
                 "Created"]
                w) as [He|[rows Hr]]; [|left; exact He|right; eauto].
    intros c rows. rewrite rds_collect.
    destruct (page_error (describe_db_instances c)); [discriminate|].
    intros Hrows. inversion Hrows; subst.
    apply List.Forall_forall. intros r Hin.
    apply in_map_iff in Hin as (a & <- & _). reflexivity.
  - destruct (handler_frame_cases session "lambda" (Some region)
                (fun lam =>
                   for_pages (list_functions lam)
                     (fun rows page =>
                        Ok (fold_left
                              (fun rows fn => rows ++ [lambda_row fn])
                              (get (Functions page) []) rows))
                     [])
                ("Lambda Functions in " +:+ region)
                ["FunctionName"; "Runtime"; "Version"; "LastModified"]
                w) as [He|[rows Hr]]; [|left; exact He|right; eauto].
    intros c rows. rewrite lambda_collect.
    destruct (page_error (list_functions c)); [discriminate|].
    intros Hrows. inversion Hrows; subst.
    apply List.Forall_forall. intros r Hin.
    apply in_map_iff in Hin as (a & <- & _). reflexivity.
Qed.

Lemma main_handlers_cases service region e :
  (exists msg, main_handlers service region e = Some (fail msg 1))
  \/ (e = KeyboardInterrupt
      /\ main_handlers service region e
         = Some (fail "Interrupted by user." 130))
  \/ (exists c, e = SystemExit c /\ main_handlers service region e = None).
Proof.
  destruct e; simpl; eauto.
Qed.


(** X8.  What a run asks of boto3: nothing when the service is not
    supported; otherwise one session, built with the profile (none when
    the option is absent or empty) and the trimmed region, and, when the
    session is built, exactly one client for the normalised service key,
    whatever the handler does next.  All clients are made for the
    region, except the s3 one, which is made without a region. *)
Theorem run_makes_one_session_and_one_client (sdk : SDK) (args : Namespace) :
  let service := strip (lower (args_service args)) in
  let region := strip (args_region args) in
  let profile_name := profile_name_of (args_profile args) in
  calls (snd (program sdk args))
  = if contains SUPPORTED service
    then match boto3_Session sdk profile_name region with
         | Ok _ =>
             [CallSession profile_name region;
              CallClient service
                (if String.eqb service "s3" then None else Some region)]
         | Raise _ => [CallSession profile_name region]
         end
    else [].
Proof.
  intros service region profile_name. rewrite program_world.
  destruct (contains SUPPORTED service) eqn:Hc.
  2:{ unfold service in Hc. now rewrite main_unsupported by exact Hc. }
  apply contains_supported in Hc.
  destruct (subscript_supported _ Hc) as (h & Hh & _).
  pose proof (get_session_spec sdk (args_profile args) region init_world)
    as Hs.
  cbv zeta in Hs. fold profile_name in Hs.
  destruct (boto3_Session sdk profile_name region) as [session|e] eqn:Hb.
  - rewrite (main_after_session sdk args h session init_world _ Hh Hs).
    fold region. fold service.
    destruct (handler_all_or_nothing _ h session region
                (called init_world [CallSession profile_name region]) Hh)
      as [[e He]|(title & rows & headers & Hok)].
    + rewrite He.
      destruct (main_handlers_cases service region e)
        as [[msg Hm]|[[-> Hm]|(c & -> & Hm)]]; rewrite Hm; reflexivity.
    + rewrite Hok. reflexivity.
  - rewrite (main_supported _ _ h) by exact Hh. fold region.
    destruct e; simpl in Hs; rewrite (bind_raise _ _ _ _ _ Hs);
      reflexivity.
Qed.

(** ** Normalisation of the arguments, in general *)

Lemma lower_char_idempotent c : lower_char (lower_char c) = lower_char c.
Proof. destruct c as [[] [] [] [] [] [] [] []]; reflexivity. Qed.

Lemma isspace_lower_char c : isspace (lower_char c) = isspace c.
Proof. destruct c as [[] [] [] [] [] [] [] []]; reflexivity. Qed.

Lemma lower_idempotent s : lower (lower s) = lower s.
Proof.
  induction s as [|c s IH]; simpl; [reflexivity|].
  now rewrite lower_char_idempotent, IH.
Qed.

Lemma lower_lstrip s : lower (lstrip s) = lstrip (lower s).
Proof.
  induction s as [|c s IH]; simpl; [reflexivity|].
  rewrite isspace_lower_char. now destruct (isspace c).
Qed.

Lemma lower_rstrip s : lower (rstrip s) = rstrip (lower s).
Proof.
  induction s as [|c s IH]; simpl; [reflexivity|].
  rewrite <- IH, isspace_lower_char.
  destruct (rstrip s) as [|c' r]; simpl; [|reflexivity].
  now destruct (isspace c).
Qed.

Lemma lower_strip s : lower (strip s) = strip (lower s).
Proof. unfold strip. now rewrite lower_rstrip, lower_lstrip. Qed.

Lemma normalize_service_idempotent s :
  strip (lower (strip (lower s))) = strip (lower s).
Proof.
  now rewrite lower_strip, lower_idempotent, strip_idempotent.
Qed.

Lemma get_session_profile sdk profile region w :
  get_session sdk (profile_name_of profile) region w
  = get_session sdk profile region w.
Proof. destruct profile as [[|c p]|]; reflexivity. Qed.

(** X9.  A run depends on its arguments only through their normal form:
    for every service string, region and profile, the run is the run on
    the lowercased and trimmed service, the trimmed region and the
    profile with the empty string read as absent; and normalising twice
    changes nothing.  So any mix of case and surrounding whitespace in
    the service, and any whitespace around the region, is immaterial. *)
Theorem run_depends_on_normalized_arguments (sdk : SDK) (args : Namespace) :
  program sdk args = program sdk (normalized args)
  /\ (forall w, main sdk args w = main sdk (normalized args) w)
  /\ normalized (normalized args) = normalized args.
Proof.
  assert (Hmain : forall w, main sdk args w = main sdk (normalized args) w).
  { intros w. unfold main, normalized. simpl args_service.
    simpl args_region. simpl args_profile.
    rewrite normalize_service_idempotent, strip_idempotent.
    unfold bind. destruct (contains SUPPORTED _); simpl; [|reflexivity].
    now rewrite get_session_profile. }
  split; [|split].
  - unfold program. now rewrite Hmain.
  - exact Hmain.
  - unfold normalized. simpl.
    rewrite normalize_service_idempotent, strip_idempotent.
    now destruct (args_profile args) as [[|c p]|].
Qed.

(** ** Interrupts and messages *)

(** X10.  The translation of a keyboard interrupt to exit code 130 covers
    the handler only.  When the session constructor itself is interrupted,
    for a supported service, [get_session] does not catch it and [main]
    is not yet in its [try]: the exception leaves the program uncaught,
    with both streams empty and no "Error: " line. *)
Theorem interrupt_in_session_constructor_is_uncaught
  (sdk : SDK) (args : Namespace) :
  let region := strip (args_region args) in
  let profile_name := profile_name_of (args_profile args) in
  In (strip (lower (args_service args))) supported_keys ->
  boto3_Session sdk profile_name region = Raise KeyboardInterrupt ->
  program sdk args
  = (Uncaught KeyboardInterrupt,
     mk_world [] [] [CallSession profile_name region]).
Proof.
  intros region profile_name Hin Hraise.
  destruct (subscript_supported _ Hin) as (h & Hh & _).
  pose proof (get_session_spec sdk (args_profile args) region init_world)
    as Hs.
  cbv zeta in Hs. fold profile_name in Hs. rewrite Hraise in Hs.
  simpl in Hs. unfold program.
  rewrite (main_supported _ _ h) by exact Hh. fold region.
  now rewrite (bind_raise _ _ _ _ _ Hs).
Qed.

Lemma interrupt_in_session_constructor_is_uncaught_witness :
  program interrupted_sdk (mk_Namespace "ec2" "eu-west-1" (Some "dev"))
  = (Uncaught KeyboardInterrupt,
     mk_world [] [] [CallSession (Some "dev") "eu-west-1"]).
Proof.
  apply (interrupt_in_session_constructor_is_uncaught interrupted_sdk
           (mk_Namespace "ec2" "eu-west-1" (Some "dev"))
           ltac:(simpl; tauto) eq_refl).
Defined.

(** X11.  The line printed when the handler of a supported service
    raises, once the session is there; the exit code is 1 each time.
    - no credentials: the fixed text that begins "No AWS credentials
      found.";
    - a [ClientError]: "AWS API error (code): message", where a response
      without an [Error] entry or without a [Code] gives the code
      "Unknown", and without a [Message] gives [str(e)];
    - an endpoint that cannot be reached: a text that quotes the trimmed
      region, then [str(e)];
    - a [NoRegionError], [KeyError], [IndexError] or any other exception:
      "Unexpected error: " and [str(e)]. *)
Theorem handler_failure_message
  (sdk : SDK) (args : Namespace) (h : handler) (session : Session)
  (w1 w2 : world) (e : exn) :
  let service := strip (lower (args_service args)) in
  let region := strip (args_region args) in
  subscript SUPPORTED service = Ok h ->
  get_session sdk (args_profile args) region init_world
  = (Ok session, w1) ->
  h session region w1 = (Raise e, w2) ->
  (forall m, e = NoCredentialsError m ->
     program sdk args
     = (Exit 1,
        emit_err w2 "Error: No AWS credentials found. Configure credentials via environment variables or AWS config files."))
  /\ (forall response m, e = ClientError response m ->
        program sdk args
        = (Exit 1,
           emit_err w2
             ("Error: AWS API error ("
              +:+ match Error response with
                  | Some (mk_error_dict (Some code) _) => code
                  | _ => "Unknown"
                  end
              +:+ "): "
              +:+ match Error response with
                  | Some (mk_error_dict _ (Some message)) => message
                  | _ => m
                  end)))
  /\ (forall m, e = EndpointConnectionError m ->
        program sdk args
        = (Exit 1,
           emit_err w2
             ("Error: Could not connect to endpoint for region '"
              +:+ region +:+ "'. Is the region correct? Details: " +:+ m)))
  /\ (forall m,
        e = NoRegionError m \/ e = KeyError m \/ e = IndexError m
        \/ e = AttributeError m \/ e = OtherException m ->
        program sdk args
        = (Exit 1, emit_err w2 ("Error: Unexpected error: " +:+ m))).
Proof.
  intros service region Hh Hs Hrun.
  pose proof (main_after_session sdk args h session init_world w1 Hh Hs)
    as Hmain.
  fold region in Hmain. fold service in Hmain. rewrite Hrun in Hmain.
  unfold program. rewrite Hmain.
  split; [|split; [|split]].
  - intros m ->. reflexivity.
  - intros response m ->. simpl.
    destruct (Error response) as [[[code|] [message|]]|]; reflexivity.
  - intros m ->. reflexivity.
  - intros m [->|[->|[->|[->| ->]]]]; reflexivity.
Qed.

Lemma handler_failure_message_witness :
  program (failing_sdk denied) (mk_Namespace "Lambda" " eu-west-1" None)
  = (Exit 1,
     mk_world [] ["Error: AWS API error (AccessDenied): Access Denied"]
              [CallSession None "eu-west-1";
               CallClient "lambda" (Some "eu-west-1")]).
Proof.
  apply (proj1 (proj2 (handler_failure_message
                         (failing_sdk denied)
                         (mk_Namespace "Lambda" " eu-west-1" None)
                         list_lambda (failing_session denied)
                         (mk_world [] [] [CallSession None "eu-west-1"])
                         (mk_world [] []
                            [CallSession None "eu-west-1";
                             CallClient "lambda" (Some "eu-west-1")])
                         denied eq_refl eq_refl eq_refl))
           _ _ eq_refl).
Defined.

(** ** s3 with an empty region *)

Lemma or_us_east_1_not_empty loc : or_us_east_1 loc <> "".
Proof. destruct loc as [[|c l]|]; discriminate. Qed.

Lemma s3_step_empty_region s3 rows b rows' :
  s3_step s3 "" rows b = Ok rows' -> rows' = rows.
Proof.
  unfold s3_step.
  destruct (get_bucket_location s3 (Bucket_Name b)) as [resp|e].
  - destruct (String.eqb_spec (or_us_east_1 (LocationConstraint resp)) "")
      as [Heq|_].
    + now destruct (or_us_east_1_not_empty _ Heq).
    + intros H. now inversion H.
  - destruct (is_ClientError e); intros H; now inversion H.
Qed.

(** X12.  With the empty region (what a region argument of spaces only
    becomes) [list_s3] shows no bucket at all: a resolved location is
    never empty, so whenever the handler returns it has printed the title
    "S3 Buckets in " and "(no resources found)", whatever buckets the
    account has. *)
Theorem list_s3_with_empty_region_lists_nothing
  (session : Session) (w w' : world) :
  list_s3 session "" w = (Ok tt, w') ->
  w' = emit (called w [CallClient "s3" None])
            ["=============="; "S3 Buckets in "; "==============";
             "(no resources found)"].
Proof.
  rewrite list_s3_frame.
  destruct (make_client session "s3" None) as [s3|e]; [|discriminate].
  destruct (list_buckets s3) as [resp|e]; simpl; [|discriminate].
  destruct (rfoldl (s3_step s3 "") [] (get (Buckets resp) []))
    as [rows|e] eqn:Hrows; [|discriminate].
  assert (Hnil : rows = []).
  { apply (rfoldl_invariant (fun r => r = []) (s3_step s3 "")
             (get (Buckets resp) [])) with (a := []);
      [|reflexivity|exact Hrows].
    intros a b a' -> H. now apply s3_step_empty_region in H. }
  subst rows. intros H. now inversion H.
Qed.

Lemma list_s3_with_empty_region_lists_nothing_witness :
  snd (list_s3 sample_session "" init_world)
  = mk_world ["=============="; "S3 Buckets in "; "==============";
              "(no resources found)"] [] [CallClient "s3" None].
Proof.
  apply (list_s3_with_empty_region_lists_nothing
           sample_session init_world _ eq_refl).
Defined.
